(** * keg: content-addressed fetch-and-cache layer (keg/cdn.py, keg/__init__.py)

    A shallow embedding of the CDN access classes of [keg/cdn.py]
    ([partition_hash], [RemoteCDN], [LocalCDN], [CacheableCDNWrapper],
    [HTTPCacheWrapper]) and of the metadata orchestrator [Keg] of
    [keg/__init__.py], followed by the properties established about them.

    Conventions.
    - A Python [str] is a Rocq [string]; one [ascii] stands for one character.
      Python [bytes] are [list byte].
    - Code with side effects is written in a state-and-exception monad
      [M S A := S -> result A * S]: the state reached when an exception is
      raised is kept, exactly as the effects performed by Python code before
      a [raise] stay visible.
    - The operating system, the HTTP origin and the SQL engine are not part of
      the program.  Each is given as a small executable model whose
      assumptions are listed where it is defined. *)

From Stdlib Require Import ZArith Strings.Ascii Strings.Byte Lia.
From stdpp Require Import base tactics option list gmap strings.

(** ** Exceptions and the state-and-exception monad *)

Inductive exn : Type :=
  | AssertionError
  | KeyError
  | ValueError
  | FileNotFoundError
  | FileExistsError
  | IsADirectoryError
  | NotADirectoryError
  | ConnectionError
  | OperationalError
  | ProgrammingError.

Inductive result (A : Type) : Type :=
  | Ok (a : A)
  | Raise (e : exn).
Arguments Ok {A} a.
Arguments Raise {A} e.

Definition M (S A : Type) : Type := S -> result A * S.

Definition ret {S A} (a : A) : M S A := fun s => (Ok a, s).

Definition raise {S A} (e : exn) : M S A := fun s => (Raise e, s).

Definition bind {S A B} (m : M S A) (k : A -> M S B) : M S B :=
  fun s => match m s with
           | (Ok a, s') => k a s'
           | (Raise e, s') => (Raise e, s')
           end.

Definition gets {S A} (f : S -> A) : M S A := fun s => (Ok (f s), s).

Definition modify {S} (f : S -> S) : M S unit := fun s => (Ok tt, f s).

(** Run a computation on a component [T] of the state [S]. *)
Definition zoom {S T A} (get : S -> T) (set : T -> S -> S) (m : M T A) : M S A :=
  fun s => let (r, t') := m (get s) in (r, set t' s).

Definition lift_result {S A} (r : result A) : M S A := fun s => (r, s).

Declare Scope keg_scope.
Delimit Scope keg_scope with keg.
Notation "'let!' x ':=' c1 'in' c2" := (bind c1 (fun x => c2))
  (at level 10, x pattern, c1 at level 100, c2 at level 200,
   format "'[v' 'let!'  x  ':='  c1  'in' '/' c2 ']'") : keg_scope.
Notation "'do!' c1 'in' c2" := (bind c1 (fun _ => c2))
  (at level 10, c1 at level 100, c2 at level 200,
   format "'[v' 'do!'  c1  'in' '/' c2 ']'") : keg_scope.
Local Open Scope keg_scope.

(** ** Python string primitives used by the source *)

Module Py.

Definition slash : ascii := "/"%char.

Definition is_slash (c : ascii) : bool := bool_decide (c = slash).

Fixpoint str_take (n : nat) (s : string) : string :=
  match n, s with
  | S n', String c s' => String c (str_take n' s')
  | _, _ => ""
  end.

Fixpoint str_drop (n : nat) (s : string) : string :=
  match n, s with
  | S n', String _ s' => str_drop n' s'
  | _, _ => s
  end.

(** [s[i:j]] for literal bounds [0 <= i], [0 <= j]: the characters at the
    positions [k] with [i <= k < j] that exist.  Slicing never raises. *)
Definition slice (s : string) (i j : nat) : string :=
  str_take (j - i) (str_drop i s).

(** [s.lstrip("/")] *)
Fixpoint lstrip_slash (s : string) : string :=
  match s with
  | String c s' => if is_slash c then lstrip_slash s' else s
  | EmptyString => ""
  end.

(** [s.rstrip("/")] *)
Fixpoint rstrip_slash (s : string) : string :=
  match s with
  | String c s' =>
      match rstrip_slash s' with
      | EmptyString => if is_slash c then "" else String c ""
      | r => String c r
      end
  | EmptyString => ""
  end.

(** [s.strip("/")] *)
Definition strip_slash (s : string) : string := rstrip_slash (lstrip_slash s).

Definition startswith_slash (s : string) : bool :=
  match s with
  | String c _ => is_slash c
  | EmptyString => false
  end.

Fixpoint endswith_slash (s : string) : bool :=
  match s with
  | String c EmptyString => is_slash c
  | String _ s' => endswith_slash s'
  | EmptyString => false
  end.

Fixpoint all_slashes (s : string) : bool :=
  match s with
  | String c s' => is_slash c && all_slashes s'
  | EmptyString => true
  end.

(** [p[:p.rfind("/") + 1]]: the prefix of [p] up to and including its last
    separator, empty when [p] has none. *)
Fixpoint through_last_slash (p : string) : string :=
  match p with
  | String c p' =>
      match through_last_slash p' with
      | EmptyString => if is_slash c then String c "" else ""
      | h => String c h
      end
  | EmptyString => ""
  end.

(** [posixpath.join(a, b)] with one component [b]. *)
Definition os_path_join (a b : string) : string :=
  if startswith_slash b then b
  else if bool_decide (a = "") || endswith_slash a then a +:+ b
  else a +:+ "/" +:+ b.

(** [posixpath.dirname(p)] *)
Definition os_path_dirname (p : string) : string :=
  let head := through_last_slash p in
  if negb (bool_decide (head = "")) && negb (all_slashes head)
  then rstrip_slash head
  else head.

End Py.

(** ** The file system

    Paths are compared as written: no normalisation of [.], [..], repeated or
    trailing separators, and no symbolic links.  A file is its content; a
    write through an open file reaches the file at once (Python's buffering
    is left out). *)

Record filesystem : Type := {
  files : gmap string (list byte);
  dirs : gset string
}.

Module Os.

Definition set_files (f : gmap string (list byte)) (fs : filesystem) :=
  {| files := f; dirs := dirs fs |}.

Definition set_dirs (d : gset string) (fs : filesystem) :=
  {| files := files fs; dirs := d |}.

Definition is_file (fs : filesystem) (p : string) : bool :=
  bool_decide (is_Some (files fs !! p)).

Definition is_dir (fs : filesystem) (p : string) : bool :=
  bool_decide (p ∈ dirs fs).

Definition present (fs : filesystem) (p : string) : bool :=
  is_file fs p || is_dir fs p.

(** [os.path.exists(p)] *)
Definition path_exists (p : string) : M filesystem bool :=
  gets (fun fs => present fs p).

(** The proper ancestors of [p], nearest first. *)
Fixpoint ancestors (fuel : nat) (p : string) : list string :=
  match fuel with
  | O => []
  | S fuel' =>
      let d := Py.os_path_dirname p in
      if bool_decide (d = "") || bool_decide (d = p) then []
      else d :: ancestors fuel' d
  end.

(** [os.makedirs(p)] (with [exist_ok=False]) *)
Definition makedirs (p : string) : M filesystem unit :=
  fun fs =>
    if bool_decide (p = "") then (Raise FileNotFoundError, fs)
    else if present fs p then (Raise FileExistsError, fs)
    else if existsb (is_file fs) (ancestors (String.length p) p)
    then (Raise NotADirectoryError, fs)
    else (Ok tt,
          set_dirs ({[ p ]} ∪ list_to_set (ancestors (String.length p) p)
                    ∪ dirs fs) fs).

(** A file object opened for writing. *)
Record wfile : Type := { wf_path : string; wf_closed : bool }.

(** [open(p, "wb")]: creates or truncates [p]. *)
Definition open_wb (p : string) : M filesystem wfile :=
  fun fs =>
    let parent := Py.os_path_dirname p in
    if is_dir fs p then (Raise IsADirectoryError, fs)
    else if bool_decide (parent = "") || is_dir fs parent
    then (Ok {| wf_path := p; wf_closed := false |},
          set_files (<[ p := [] ]> (files fs)) fs)
    else if existsb (is_file fs) (ancestors (String.length p) p)
    then (Raise NotADirectoryError, fs)
    else (Raise FileNotFoundError, fs).

(** [f.write(data)] *)
Definition write (f : wfile) (data : list byte) : M filesystem unit :=
  fun fs =>
    if wf_closed f then (Raise ValueError, fs)
    else (Ok tt,
          set_files (<[ wf_path f :=
                        (default [] (files fs !! wf_path f) ++ data)%list ]>
                     (files fs)) fs).

(** [f.close()] *)
Definition close (f : wfile) : wfile :=
  {| wf_path := wf_path f; wf_closed := true |}.

(** [os.rename(src, dst)] for a regular file [src], as on POSIX: [dst] is
    replaced when it is a file. *)
Definition rename (src dst : string) : M filesystem unit :=
  fun fs =>
    match files fs !! src with
    | None => (Raise FileNotFoundError, fs)
    | Some c =>
        if is_dir fs dst then (Raise IsADirectoryError, fs)
        else (Ok tt, set_files (<[ dst := c ]> (delete src (files fs))) fs)
    end.

(** The content found by [open(p, "rb")].  A path below a regular file
    is refused with [NotADirectoryError]. *)
Definition open_rb (p : string) : M filesystem (list byte) :=
  fun fs =>
    match files fs !! p with
    | Some c => (Ok c, fs)
    | None =>
        if is_dir fs p then (Raise IsADirectoryError, fs)
        else if existsb (is_file fs) (ancestors (String.length p) p)
        then (Raise NotADirectoryError, fs)
        else (Raise FileNotFoundError, fs)
    end.

End Os.

(** ** Readable byte streams ([IO])

    A stream owns the bytes it has not delivered yet.  [breaks_after = Some k]
    is an upstream whose transport is lost once [k] more bytes were
    delivered: a read that needs more raises.  What later reads do depends
    on the object: with [eof_after_break = false] every later read of at
    least one byte raises again; with [eof_after_break = true] the stream is
    at its end after the failure and later reads answer empty, as the body
    of an HTTP response does once its connection was dropped. *)

Record stream : Type := {
  pending : list byte;
  breaks_after : option nat;
  closed : bool;
  eof_after_break : bool
}.

Module Stream.

Definition of_bytes (b : list byte) : stream :=
  {| pending := b; breaks_after := None; closed := false;
     eof_after_break := false |}.

Definition read_upto (k : nat) : M stream (list byte) :=
  fun s =>
    if closed s then (Raise ValueError, s)
    else
      let out := take k (pending s) in
      match breaks_after s with
      | Some b =>
          if b <? length out
          then (Raise ConnectionError,
                if eof_after_break s
                then {| pending := []; breaks_after := None;
                        closed := false; eof_after_break := true |}
                else {| pending := pending s; breaks_after := Some 0;
                        closed := false; eof_after_break := false |})
          else (Ok out,
                {| pending := drop k (pending s);
                   breaks_after := Some (b - length out);
                   closed := false;
                   eof_after_break := eof_after_break s |})
      | None =>
          (Ok out,
           {| pending := drop k (pending s); breaks_after := None;
              closed := false; eof_after_break := eof_after_break s |})
      end.

(** [obj.read()] is [read None]; [obj.read(n)] is [read (Some n)], which
    reads to the end for a negative [n]. *)
Definition read (amt : option Z) : M stream (list byte) :=
  fun s =>
    match amt with
    | None => read_upto (length (pending s)) s
    | Some n =>
        if (n <? 0)%Z then read_upto (length (pending s)) s
        else read_upto (Z.to_nat n) s
    end.

Definition close : M stream unit :=
  modify (fun s => {| pending := pending s; breaks_after := breaks_after s;
                      closed := true;
                      eof_after_break := eof_after_break s |}).

End Stream.

(** ** The HTTP origin and the state of the CDN layer

    [origin n url] is what the network answers to a GET of [url] issued after
    [n] earlier requests; [None] is a transport failure.  [requests] logs the
    URL of every GET, oldest first; [stdout] collects what [print] wrote. *)

Record http_response : Type := {
  content_length : option string;
  raw : stream
}.

Record world : Type := {
  fs : filesystem;
  origin : nat -> string -> option http_response;
  requests : list string;
  stdout : list string
}.

Definition set_fs (f : filesystem) (w : world) : world :=
  {| fs := f; origin := origin w; requests := requests w; stdout := stdout w |}.

Definition on_fs {A} (m : M filesystem A) : M world A := zoom fs set_fs m.

Definition print (line : string) : M world unit :=
  modify (fun w => {| fs := fs w; origin := origin w; requests := requests w;
                      stdout := (stdout w ++ [line])%list |}).

(** [requests.get(url, stream=True)] *)
Definition requests_get (url : string) : M world http_response :=
  fun w =>
    let w' := {| fs := fs w; origin := origin w;
                 requests := (requests w ++ [url])%list; stdout := stdout w |} in
    match origin w (length (requests w)) url with
    | Some resp => (Ok resp, w')
    | None => (Raise ConnectionError, w')
    end.

(** ** [keg/cdn.py] *)

(** [partition_hash(hash)]: [f"{hash[0:2]}/{hash[2:4]}/{hash}"]. *)
Definition partition_hash (hash : string) : string :=
  Py.slice hash 0 2 +:+ "/" +:+ Py.slice hash 2 4 +:+ "/" +:+ hash.

(** The CDN descriptor handed to [RemoteCDN]: the class is declared in
    [keg/http.py]; only the two attributes read by [keg/cdn.py] appear. *)
Module CDNs.
Record t : Type := { all_servers : list string; path : string }.
End CDNs.

Module RemoteCDN.

Record t : Type := { server : string; path : string }.

(** [__init__]: [assert cdn.all_servers], then the first server. *)
Definition init (cdn : CDNs.t) : result t :=
  match CDNs.all_servers cdn with
  | [] => Raise AssertionError
  | s :: _ => Ok {| server := s; path := CDNs.path cdn |}
  end.

Definition url (self : t) (path' : string) : string :=
  server self +:+ "/" +:+ path self +:+ path'.

(** [resp.headers['content-length']] *)
Definition header_content_length (resp : http_response) : M world string :=
  match content_length resp with
  | Some n => ret n
  | None => raise KeyError
  end.

Definition get_item (self : t) (path' : string) : M world stream :=
  let url := url self path' in
  do! print ("HTTP GET " +:+ url) in
  let! resp := requests_get url in
  let! n := header_content_length resp in
  do! print ("Downloading " +:+ n +:+ " bytes...") in
  ret (raw resp).

End RemoteCDN.

Module LocalCDN.

Record t : Type := { base_dir : string }.

Definition init (base_dir : string) : t := {| base_dir := base_dir |}.

Definition get_full_path (self : t) (path : string) : string :=
  Py.os_path_join (base_dir self) (Py.lstrip_slash path).

(** [open(..., "rb")]: the file object is the stream of the bytes the file
    holds when it is opened. *)
Definition get_item (self : t) (path : string) : M world stream :=
  let! content := on_fs (Os.open_rb (get_full_path self path)) in
  ret (Stream.of_bytes content).

Definition exists_ (self : t) (path : string) : M world bool :=
  on_fs (Os.path_exists (get_full_path self path)).

End LocalCDN.

Module HTTPCacheWrapper.

Record t : Type := {
  _obj : stream;
  _real_path : string;
  _temp_path : string;
  _cache_file : Os.wfile
}.

(** The methods run on the object and the world it lives in: the effects of
    a method on [self._obj] and [self._cache_file] stay when it raises. *)
Definition state : Type := (t * world)%type.

Definition on_world {A} (m : M world A) : M state A :=
  zoom snd (fun w st => (fst st, w)) m.

Definition set_obj (o : stream) (self : t) : t :=
  {| _obj := o; _real_path := _real_path self;
     _temp_path := _temp_path self; _cache_file := _cache_file self |}.

Definition set_cache_file (f : Os.wfile) (self : t) : t :=
  {| _obj := _obj self; _real_path := _real_path self;
     _temp_path := _temp_path self; _cache_file := f |}.

Definition on_obj {A} (m : M stream A) : M state A :=
  zoom (fun st => _obj (fst st))
       (fun o st => (set_obj o (fst st), snd st)) m.

Definition init (obj : stream) (path : string) : M world t :=
  let dir_path := Py.os_path_dirname path in
  let! present := on_fs (Os.path_exists dir_path) in
  do! (if negb present then on_fs (Os.makedirs dir_path) else ret tt) in
  let temp_path := path +:+ ".keg_temp" in
  let! cache_file := on_fs (Os.open_wb temp_path) in
  ret {| _obj := obj; _real_path := path; _temp_path := temp_path;
         _cache_file := cache_file |}.

Definition cache_file_write (data : list byte) : M state unit :=
  fun st => on_world (on_fs (Os.write (_cache_file (fst st)) data)) st.

Definition cache_file_close : M state unit :=
  modify (fun st =>
            (set_cache_file (Os.close (_cache_file (fst st))) (fst st),
             snd st)).

Definition read (bytes : Z) : M state (list byte) :=
  let! ret_ :=
    (if (bytes =? -1)%Z then on_obj (Stream.read None)
     else on_obj (Stream.read (Some bytes))) in
  do! (match ret_ with
       | [] => ret tt
       | _ :: _ => cache_file_write ret_
       end) in
  ret ret_.

Definition close : M state unit :=
  let! _ := read (-1) in
  do! cache_file_close in
  (* Atomic write&move; make sure there's no partially-written caches. *)
  do! (fun st =>
         on_world (on_fs (Os.rename (_temp_path (fst st))
                                    (_real_path (fst st)))) st) in
  on_obj Stream.close.

(** [__exit__]: release the writer, do not swallow the exception. *)
Definition exit_ : M state bool :=
  do! close in
  ret false.

(** Run a method of a wrapper that is dropped afterwards. *)
Definition run {A} (self : t) (m : M state A) : M world A :=
  fun w => let (r, st) := m (self, w) in (r, snd st).

End HTTPCacheWrapper.

Module CacheableCDNWrapper.

Record t : Type := { local_cdn : LocalCDN.t; remote_cdn : RemoteCDN.t }.

Definition init (cdns_response : CDNs.t) (base_dir : string) : M world t :=
  let! present := on_fs (Os.path_exists base_dir) in
  do! (if negb present then on_fs (Os.makedirs base_dir) else ret tt) in
  let local := LocalCDN.init base_dir in
  let! remote := lift_result (RemoteCDN.init cdns_response) in
  ret {| local_cdn := local; remote_cdn := remote |}.

Definition get_item (self : t) (path : string) : M world stream :=
  let! present := LocalCDN.exists_ (local_cdn self) path in
  do! (if negb present then
         let cache_file_path :=
           LocalCDN.get_full_path (local_cdn self) path in
         let! obj := RemoteCDN.get_item (remote_cdn self) path in
         let! f := HTTPCacheWrapper.init obj cache_file_path in
         HTTPCacheWrapper.run f HTTPCacheWrapper.close
       else ret tt) in
  LocalCDN.get_item (local_cdn self) path.

Definition has_config (self : t) (key : string) : M world bool :=
  let path := "/config/" +:+ partition_hash key in
  LocalCDN.exists_ (local_cdn self) path.

Definition has_data (self : t) (key : string) : M world bool :=
  let path := "/data/" +:+ partition_hash key in
  LocalCDN.exists_ (local_cdn self) path.

Definition has_index (self : t) (key : string) : M world bool :=
  let path := "/data/" +:+ partition_hash key +:+ ".index" in
  LocalCDN.exists_ (local_cdn self) path.

End CacheableCDNWrapper.

(** ** The relational store

    Modelled from the spec: the schema of the store (the CREATE TABLE
    statements are not in the source).  [responses] has the columns
    [(remote, path, timestamp, digest, source)] without any key or uniqueness
    constraint; there is one table per tabular path, with the columns
    [(remote, key, row, <header...>)].  A table is the list of its rows in
    insertion order.  Statements are kept structured: the source builds their
    text with [%] formatting, which yields these statements when the table
    name holds no double quote and the header names are plain identifiers. *)

Module Sql.

Record response_row : Type := {
  r_remote : string;
  r_path : string;
  r_timestamp : Z;
  r_digest : string;
  r_source : Z
}.

(** A row of a tabular table: the values bound to [remote], [key] and
    [row], then the value of each header column named by the INSERT. *)
Record psv_row : Type := {
  p_remote : string;
  p_key : string;
  p_row : Z;
  p_fields : list (string * string)
}.

Record psv_table : Type := {
  t_columns : list string;
  t_rows : list psv_row
}.

(** Modelled from the spec: the tables of the store, whose CREATE TABLE
    statements are missing from the source.  [responses] carries no key and
    no uniqueness constraint; the tabular tables are found by name. *)
Record database : Type := {
  responses : list response_row;
  tables : gmap string psv_table
}.

(** A connection: statements act on [working]; [commit] publishes it. *)
Record connection : Type := {
  working : database;
  committed : database
}.

Definition on_working {A} (m : M database A) : M connection A :=
  zoom working (fun d c => {| working := d; committed := committed c |}) m.

Definition tagged (remote key : string) (r : psv_row) : bool :=
  bool_decide (p_remote r = remote) && bool_decide (p_key r = key).

(** [DELETE FROM "<table_name>" where remote = ? and key = ?] *)
Definition delete_rows (table_name remote key : string) : M database unit :=
  fun db =>
    if bool_decide (table_name = "responses")
    then (Raise OperationalError, db)   (* no column [key] *)
    else
      match tables db !! table_name with
      | None => (Raise OperationalError, db)   (* no such table *)
      | Some t =>
          (Ok tt,
           {| responses := responses db;
              tables :=
                <[ table_name :=
                   {| t_columns := t_columns t;
                      t_rows := filter (fun r => tagged remote key r = false)
                                       (t_rows t) |} ]> (tables db) |})
      end.

(** [INSERT INTO "<table_name>" (remote, key, row, <header>) values
    (?, ?, ?, <one ? per header column>)] with the parameters
    [[remote, key, i, *row]]. *)
Definition insert_row (table_name : string) (header : list string)
    (remote key : string) (i : Z) (row : list string) : M database unit :=
  fun db =>
    if bool_decide (table_name = "responses")
    then (Raise OperationalError, db)
    else
      match tables db !! table_name with
      | None => (Raise OperationalError, db)
      | Some t =>
          if negb (forallb (fun c => bool_decide (c ∈ t_columns t)) header)
          then (Raise OperationalError, db)   (* no such column *)
          else if negb (length row =? length header)
          then (Raise ProgrammingError, db)   (* wrong number of bindings *)
          else
            (Ok tt,
             {| responses := responses db;
                tables :=
                  <[ table_name :=
                     {| t_columns := t_columns t;
                        t_rows := t_rows t ++
                          [ {| p_remote := remote; p_key := key; p_row := i;
                               p_fields := zip header row |} ] |} ]>
                  (tables db) |})
      end.

(** [cursor.executemany]: one INSERT per parameter list, in order. *)
Fixpoint insert_rows (table_name : string) (header : list string)
    (remote key : string) (i : Z) (rows : list (list string))
    : M database unit :=
  match rows with
  | [] => ret tt
  | row :: rows' =>
      do! insert_row table_name header remote key i row in
      insert_rows table_name header remote key (i + 1) rows'
  end.

(** [INSERT INTO "responses" (remote, path, timestamp, digest, source)
    VALUES (?, ?, ?, ?, ?)] *)
Definition insert_response (r : response_row) : M database unit :=
  modify (fun db => {| responses := responses db ++ [r];
                       tables := tables db |}).

Definition matches (remote path : string) (r : response_row) : bool :=
  bool_decide (r_remote r = remote) && bool_decide (r_path r = path).

(** The first row of [ORDER BY timestamp DESC]: a row of greatest
    timestamp (SQL leaves the order of ties open; the earliest inserted
    one is taken). *)
Fixpoint latest (rs : list response_row) : option response_row :=
  match rs with
  | [] => None
  | r :: rs' =>
      match latest rs' with
      | Some r' => if (r_timestamp r <? r_timestamp r')%Z
                   then Some r' else Some r
      | None => Some r
      end
  end.

(** [SELECT digest FROM responses WHERE remote = ? AND path = ?
    ORDER BY timestamp DESC LIMIT 1] followed by [fetchone()]. *)
Definition select_latest_digest (remote path : string)
    : M database (option string) :=
  gets (fun db =>
          r_digest <$> latest (filter (fun r => matches remote path r = true)
                                      (responses db))).

Definition commit : M connection unit :=
  modify (fun c => {| working := working c; committed := working c |}).

End Sql.

(** ** [keg/__init__.py] *)

(** [class Source(IntEnum)] *)
Inductive Source : Type := HTTP.

Definition Source_value (s : Source) : Z :=
  match s with HTTP => 1%Z end.

(** A parsed tabular file ([psv.PSVFile]): its header and its rows. *)
Record PSVFile : Type := {
  header : list string;
  psv_rows : list (list string)
}.

(** The metadata of a fetched response, as [keg/http.py] hands it over. *)
Record Response : Type := {
  resp_path : string;
  content : list byte;
  timestamp : Z;
  digest : string
}.

(** The state the orchestrator acts on.  [backend n url] is what the [n+1]-th
    fetch of the HTTP backend yields when it asks for [url]: a parsed table
    with its response, or [None] when the fetch raises.  [fetches] logs the
    URL of every fetch.  [state_cache] holds the blobs of the disk cache by
    (cache directory, path, digest). *)
Record keg_world : Type := {
  cache_db : Sql.connection;
  state_cache : gmap (string * string * string) (list byte);
  backend : nat -> string -> option (PSVFile * Response);
  fetches : list string
}.

Definition on_db {A} (m : M Sql.database A) : M keg_world A :=
  zoom cache_db
       (fun c w => {| cache_db := c; state_cache := state_cache w;
                      backend := backend w; fetches := fetches w |})
       (Sql.on_working m).

Definition db_commit : M keg_world unit :=
  zoom cache_db
       (fun c w => {| cache_db := c; state_cache := state_cache w;
                      backend := backend w; fetches := fetches w |})
       Sql.commit.

Module StateCache.

(** Modelled from the spec: [StateCache(cache_dir).read(path, key)] of
    [keg/http.py], which is absent.  It reads a previously cached blob by
    (path, digest) from the disk cache, without network access. *)
Definition read (cache_dir path key : string) : M keg_world (list byte) :=
  fun w =>
    match state_cache w !! (cache_dir, path, key) with
    | Some blob => (Ok blob, w)
    | None => (Raise FileNotFoundError, w)
    end.

(** Modelled from the spec: [response.write_to_cache(cache_dir)] of
    [keg/http.py], which is absent.  It writes the response to the disk
    cache under its path and digest. *)
Definition write_to_cache (response : Response) (cache_dir : string)
    : M keg_world unit :=
  modify (fun w =>
    {| cache_db := cache_db w;
       state_cache := <[ (cache_dir, resp_path response, digest response)
                         := content response ]> (state_cache w);
       backend := backend w; fetches := fetches w |}).

End StateCache.

Module HttpBackend.

(** Modelled from the spec: [HttpBackend.get_psv(path)] of [keg/http.py],
    which is absent.  It fetches the tabular response at [path] from the
    remote with one request and returns the parsed table and the
    response; a failed fetch raises. *)
Definition get_psv (remote path : string) : M keg_world (PSVFile * Response) :=
  fun w =>
    let url := remote +:+ path in
    let w' := {| cache_db := cache_db w; state_cache := state_cache w;
                 backend := backend w; fetches := fetches w ++ [url] |} in
    match backend w (length (fetches w)) url with
    | Some r => (Ok r, w')
    | None => (Raise ConnectionError, w')
    end.

End HttpBackend.

Module Keg.

Section WithParsers.

(** [psv.loads] and the constructor of [CDNs] live in modules that are
    not part of the orchestrator. *)
Context {CDNs_t : Type}.
Variable psv_loads : list byte -> result PSVFile.
Variable CDNs_new : list string -> CDNs_t.

Record t : Type := { remote : string; cache_dir : string }.

Definition get_psv (self : t) (path : string)
    : M keg_world (PSVFile * Response) :=
  let! (psvfile, response) := HttpBackend.get_psv (remote self) path in
  do! StateCache.write_to_cache response (cache_dir self) in
  let table_name := Py.strip_slash path in
  do! on_db (Sql.delete_rows table_name (remote self) (digest response)) in
  do! on_db (Sql.insert_rows table_name (header psvfile) (remote self)
                             (digest response) 0 (psv_rows psvfile)) in
  do! on_db (Sql.insert_response
               {| Sql.r_remote := remote self; Sql.r_path := path;
                  Sql.r_timestamp := timestamp response;
                  Sql.r_digest := digest response;
                  Sql.r_source := Source_value HTTP |}) in
  do! db_commit in
  ret (psvfile, response).

Definition get_cached_psv (self : t) (path key cache_dir : string)
    : M keg_world PSVFile :=
  let! data := StateCache.read cache_dir path key in
  lift_result (psv_loads data).

(** Modelled from the spec: [HttpBackend.get_cdns()] of [keg/http.py],
    which is absent: a live tabular fetch of ["/cdns"], made through
    [get_psv] of the object, so that it populates the cache. *)
Definition get_cdns (self : t) : M keg_world (list CDNs_t) :=
  let! (psvfile, _) := get_psv self "/cdns" in
  ret (map CDNs_new (psv_rows psvfile)).

Definition get_cached_cdns (self : t) (remote cache_dir : string)
    : M keg_world (list CDNs_t) :=
  let! results := on_db (Sql.select_latest_digest remote "/cdns") in
  match results with
  | None =>
      (* Fall back to querying live *)
      get_cdns self
  | Some digest =>
      let! psvfile := get_cached_psv self "/cdns" digest cache_dir in
      ret (map CDNs_new (psv_rows psvfile))
  end.

End WithParsers.

End Keg.

(** ** Uses of the cache writer

    A caller of [HTTPCacheWrapper] makes any number of [read] calls, each
    with its own argument, and releases the writer with [close] (which is
    also what [__exit__] does). *)

Fixpoint reads (amounts : list Z) : M HTTPCacheWrapper.state (list (list byte)) :=
  match amounts with
  | [] => ret []
  | n :: amounts' =>
      let! chunk := HTTPCacheWrapper.read n in
      let! chunks := reads amounts' in
      ret (chunk :: chunks)
  end.

Definition reads_then_close (amounts : list Z)
    : M HTTPCacheWrapper.state (list (list byte)) :=
  let! chunks := reads amounts in
  do! HTTPCacheWrapper.close in
  ret chunks.


(** A stream that delivers all its pending bytes: it is open and its
    transport holds at least that long. *)
Definition delivers (s : stream) : bool :=
  negb (closed s) &&
  match breaks_after s with
  | None => true
  | Some b => length (pending s) <=? b
  end.

(** What [HTTPCacheWrapper.read(bytes)] asks of the upstream. *)
Definition amount (bytes : Z) : option Z :=
  if (bytes =? -1)%Z then None else Some bytes.

(** The writer is at work: its cache file is open on the temp path, which
    differs from the destination and holds [written]. *)
Definition writing (st : HTTPCacheWrapper.state) (written : list byte) : Prop :=
  let self := fst st in
  Os.wf_closed (HTTPCacheWrapper._cache_file self) = false /\
  Os.wf_path (HTTPCacheWrapper._cache_file self)
    = HTTPCacheWrapper._temp_path self /\
  HTTPCacheWrapper._temp_path self <> HTTPCacheWrapper._real_path self /\
  files (fs (snd st)) !! HTTPCacheWrapper._temp_path self = Some written.

(** Between two states of the writer nothing changed but the upstream, the
    cache file object and the temp file. *)
Definition only_temp_touched (st st' : HTTPCacheWrapper.state) : Prop :=
  HTTPCacheWrapper._real_path (fst st') = HTTPCacheWrapper._real_path (fst st) /\
  HTTPCacheWrapper._temp_path (fst st') = HTTPCacheWrapper._temp_path (fst st) /\
  dirs (fs (snd st')) = dirs (fs (snd st)) /\
  (forall p, p <> HTTPCacheWrapper._temp_path (fst st) ->
             files (fs (snd st')) !! p = files (fs (snd st)) !! p) /\
  is_Some (files (fs (snd st')) !! HTTPCacheWrapper._temp_path (fst st)) /\
  requests (snd st') = requests (snd st) /\
  origin (snd st') = origin (snd st).


(** Idempotence of [CacheableCDNWrapper.get_item] with an unconditional
    count: two consecutive calls that return give the same content and
    issue exactly one request between them. *)
Definition two_gets_fetch_once : Prop :=
  forall (self : CacheableCDNWrapper.t) (path : string) (w w1 w2 : world)
         (s1 s2 : stream),
    CacheableCDNWrapper.get_item self path w = (Ok s1, w1) ->
    CacheableCDNWrapper.get_item self path w1 = (Ok s2, w2) ->
    s1 = s2 /\ length (requests w2) = length (requests w) + 1.

(** ** What the orchestrator leaves in the store *)

(** The rows one [executemany] of [get_psv] adds: row [i] of the table,
    tagged with the remote, the digest and its ordinal. *)
Fixpoint rows_of (header : list string) (remote key : string) (i : Z)
    (rows : list (list string)) : list Sql.psv_row :=
  match rows with
  | [] => []
  | row :: rows' =>
      {| Sql.p_remote := remote; Sql.p_key := key; Sql.p_row := i;
         Sql.p_fields := zip header row |}
      :: rows_of header remote key (i + 1) rows'
  end.

(** The rows of a table that carry a given (remote, digest). *)
Definition tagged_rows (remote key : string) (rows : list Sql.psv_row)
    : list Sql.psv_row :=
  filter (fun r => Sql.tagged remote key r = true) rows.

Definition row_set (db : Sql.database) (table_name remote key : string)
    : list Sql.psv_row :=
  match Sql.tables db !! table_name with
  | Some t => tagged_rows remote key (Sql.t_rows t)
  | None => []
  end.

(** The response records of a given (remote, digest). *)
Definition records_of (db : Sql.database) (remote key : string)
    : list Sql.response_row :=
  filter (fun r => Sql.r_remote r = remote /\ Sql.r_digest r = key)
         (Sql.responses db).

(** The record [get_psv] inserts for a response. *)
Definition record_for (self : Keg.t) (path : string) (response : Response)
    : Sql.response_row :=
  {| Sql.r_remote := Keg.remote self; Sql.r_path := path;
     Sql.r_timestamp := timestamp response;
     Sql.r_digest := digest response;
     Sql.r_source := Source_value HTTP |}.

Definition store (w : keg_world) : Sql.database := Sql.working (cache_db w).

(** The state after a statement left the working database as [d]. *)
Definition set_working (d : Sql.database) (w : keg_world) : keg_world :=
  {| cache_db := {| Sql.working := d;
                    Sql.committed := Sql.committed (cache_db w) |};
     state_cache := state_cache w; backend := backend w;
     fetches := fetches w |}.

(** Upsert of the response record: two fetches of a path that come back
    with the same digest leave exactly one record for it. *)
Definition same_digest_one_record : Prop :=
  forall (self : Keg.t) (path : string) (w0 w1 w2 : keg_world)
         (p1 p2 : PSVFile) (r1 r2 : Response),
    Keg.get_psv self path w0 = (Ok (p1, r1), w1) ->
    Keg.get_psv self path w1 = (Ok (p2, r2), w2) ->
    digest r1 = digest r2 ->
    length (records_of (store w2) (Keg.remote self) (digest r1)) = 1.

(** ** [BaseCDN]: the operations derived from [get_item]

    The variants differ in [get_item] only; the derived operations take it as
    the capability of the object they are called on. *)

Module BaseCDN.

(** [with ... as resp: return resp.read()] on a readable stream: read to the
    end, close on the way out (also when the read raised). *)
Definition read_within (resp : stream) : result (list byte) :=
  let (r, resp') := Stream.read None resp in
  let (_, _) := Stream.close resp' in
  r.

Definition fetch_config (get_item : string -> M world stream) (key : string)
    : M world (list byte) :=
  let! resp := get_item ("/config/" +:+ partition_hash key) in
  lift_result (read_within resp).

Definition fetch_index (get_item : string -> M world stream) (key : string)
    : M world (list byte) :=
  let! resp := get_item ("/data/" +:+ partition_hash key +:+ ".index") in
  lift_result (read_within resp).

Definition download_data (get_item : string -> M world stream) (key : string)
    : M world stream :=
  get_item ("/data/" +:+ partition_hash key).

End BaseCDN.

(** [s] holds no separator. *)
Fixpoint no_slash (s : string) : bool :=
  match s with
  | String c s' => negb (Py.is_slash c) && no_slash s'
  | EmptyString => true
  end.

(** ** Which directory entry a path names

    The file system walks a path name by name, from the root or from the
    working directory.  An empty name and [.] stay where the walk is; [..]
    steps back to the parent: at the root it stays, and above the start of
    a relative path it is counted in [ups].  When no name on the way is a
    symbolic link, two paths with the same walk name the same directory
    entry, and two walks that go through different names below one and the
    same place name different entries. *)
Module Walk.

Record t : Type := {
  absolute : bool;
  ups : nat;
  names : list string
}.

Definition push (n : string) (w : t) : t :=
  {| absolute := absolute w; ups := ups w; names := names w ++ [n] |}.

(** The place reached from [w] through the names [l]. *)
Definition below (w : t) (l : list string) : t :=
  {| absolute := absolute w; ups := ups w; names := names w ++ l |}.

Definition step_name (n : string) (w : t) : t :=
  if bool_decide (n = "") || bool_decide (n = ".") then w
  else if bool_decide (n = "..") then
    match names w with
    | [] => if absolute w then w
            else {| absolute := false; ups := S (ups w); names := [] |}
    | _ :: _ => {| absolute := absolute w; ups := ups w;
                   names := removelast (names w) |}
    end
  else push n w.

(** Reading [p] with the name [cur] begun: every separator ends a name. *)
Fixpoint scan (p : string) (cur : string) (w : t) : string * t :=
  match p with
  | String c p' =>
      if Py.is_slash c then scan p' "" (step_name cur w)
      else scan p' (cur +:+ String c "") w
  | EmptyString => (cur, w)
  end.

Definition start (p : string) : t :=
  {| absolute := Py.startswith_slash p; ups := 0; names := [] |}.

Definition finish (s : string * t) : t := step_name (fst s) (snd s).

Definition resolve (p : string) : t := finish (scan p "" (start p)).

End Walk.

Fixpoint all_chars (P : ascii -> bool) (s : string) : bool :=
  match s with
  | String c s' => P c && all_chars P s'
  | EmptyString => true
  end.

Definition is_hex_digit (c : ascii) : bool :=
  existsb (fun d => bool_decide (c = d))
    [ "0"; "1"; "2"; "3"; "4"; "5"; "6"; "7"; "8"; "9";
      "a"; "b"; "c"; "d"; "e"; "f" ]%char.

(** A key as the CDN hands them out: hex digits, at least one. *)
Definition hex_key (key : string) : bool :=
  negb (bool_decide (key = "")) && all_chars is_hex_digit key.

(** The partition directories of a key: [key[0:2]] and, when the key has
    more than two characters, [key[2:4]]. *)
Definition partition_dirs (key : string) : list string :=
  Py.slice key 0 2 ::
  (if bool_decide (Py.slice key 2 4 = "") then [] else [Py.slice key 2 4]).


(** ** Sample states *)

Module Sample.

Definition bytes (s : string) : list byte := String.list_byte_of_string s.

Definition offline : nat -> string -> option http_response :=
  fun _ _ => None.

(** A cache directory [d] that already holds [d/x]. *)
Definition cached : world :=
  {| fs := {| files := {[ "d/x" := bytes "old" ]}; dirs := {[ "d" ]} |};
     origin := offline; requests := []; stdout := [] |}.

(** An empty cache directory [d]. *)
Definition empty_cache : world :=
  {| fs := {| files := ∅; dirs := {[ "d" ]} |};
     origin := offline; requests := []; stdout := [] |}.


Definition body : stream := Stream.of_bytes (bytes "hello world").

(** An origin that answers every GET with the same eleven bytes. *)
Definition online : nat -> string -> option http_response :=
  fun _ _ => Some {| content_length := Some "11"; raw := body |}.

(** An empty cache directory [d] in front of that origin. *)
Definition fresh : world :=
  {| fs := {| files := ∅; dirs := {[ "d" ]} |};
     origin := online; requests := []; stdout := [] |}.

(** A store with an empty table [cdns] and no response record, behind a
    backend that answers every fetch with the same two-row table, digest
    [D1], stamped with the number of earlier fetches. *)
Definition cdns_psv : PSVFile :=
  {| header := ["Name"; "Path"];
     psv_rows := [["eu"; "tpr/hs"]; ["us"; "tpr/hs"]] |}.

Definition cdns_db : Sql.database :=
  {| Sql.responses := [];
     Sql.tables :=
       {[ "cdns" := {| Sql.t_columns := ["Name"; "Path"];
                       Sql.t_rows := [] |} ]} |}.

Definition steady : nat -> string -> option (PSVFile * Response) :=
  fun n url =>
    Some (cdns_psv,
          {| resp_path := "/cdns"; content := bytes "Name|Path";
             timestamp := Z.of_nat n; digest := "D1" |}).

Definition keg_start : keg_world :=
  {| cache_db := {| Sql.working := cdns_db; Sql.committed := cdns_db |};
     state_cache := ∅; backend := steady; fetches := [] |}.

Definition keg : Keg.t := {| Keg.remote := "r1"; Keg.cache_dir := "cache" |}.

(** A parser that reads the sample table out of every blob, and CDN
    descriptors that are the rows themselves. *)
Definition loads (blob : list byte) : result PSVFile := Ok cdns_psv.

Definition row_cdn (row : list string) : list string := row.

Definition cdns_response (n : Z) : Response :=
  {| resp_path := "/cdns"; content := bytes "Name|Path";
     timestamp := n; digest := "D1" |}.

Definition cdn : CacheableCDNWrapper.t :=
  {| CacheableCDNWrapper.local_cdn := LocalCDN.init "d";
     CacheableCDNWrapper.remote_cdn :=
       {| RemoteCDN.server := "http://s"; RemoteCDN.path := "p" |} |}.

End Sample.

(** The state once the backend was asked and, for [cached = Some response],
    once the response was written to the disk cache. *)
Definition after_fetch (self : Keg.t) (path : string)
    (cached : option Response) (w : keg_world) : keg_world :=
  {| cache_db := cache_db w;
     state_cache :=
       match cached with
       | Some r => <[ (Keg.cache_dir self, resp_path r, digest r)
                      := content r ]> (state_cache w)
       | None => state_cache w
       end;
     backend := backend w;
     fetches := fetches w ++ [Keg.remote self +:+ path] |}.

(** ** Further sample states *)

Module Scenario.



(** An upstream of four bytes whose transport is lost after two and which
    answers later reads with the end of the stream. *)
Definition dropped : stream :=
  {| pending := Sample.bytes "new!"; breaks_after := Some 2; closed := false;
     eof_after_break := true |}.

(** A parser that makes a one-cell table of the text of the blob, and
    refuses an empty blob. *)
Definition loads_line (blob : list byte) : result PSVFile :=
  match blob with
  | [] => Raise ValueError
  | _ :: _ =>
      Ok {| header := ["Name"];
            psv_rows := [[String.string_of_list_byte blob]] |}
  end.

Definition record (remote path : string) (stamp : Z) (digest : string)
    : Sql.response_row :=
  {| Sql.r_remote := remote; Sql.r_path := path; Sql.r_timestamp := stamp;
     Sql.r_digest := digest; Sql.r_source := 1 |}.

(** A store that knows three CDN lists of remote [r1], one newer list of
    remote [r2] and a newer record of [r1] for another path, each blob cached
    under its digest. *)
Definition keg_mixed : keg_world :=
  {| cache_db :=
       let db :=
         {| Sql.responses :=
              [ record "r1" "/cdns" 3 "D1";
                record "r2" "/cdns" 9 "D9";
                record "r1" "/versions" 8 "D8";
                record "r1" "/cdns" 5 "D2";
                record "r1" "/cdns" 4 "D3" ];
            Sql.tables := Sql.tables Sample.cdns_db |} in
       {| Sql.working := db; Sql.committed := db |};
     state_cache :=
       {[ ("cache", "/cdns", "D1") := Sample.bytes "eu";
          ("cache", "/cdns", "D2") := Sample.bytes "us";
          ("cache", "/cdns", "D3") := Sample.bytes "kr";
          ("cache", "/cdns", "D9") := Sample.bytes "cn";
          ("cache", "/versions", "D8") := Sample.bytes "v8" ]};
     backend := Sample.steady; fetches := [] |}.

(** The sample backend in front of a store without any tabular table. *)
Definition keg_no_table : keg_world :=
  {| cache_db :=
       {| Sql.working := {| Sql.responses := []; Sql.tables := ∅ |};
          Sql.committed := {| Sql.responses := []; Sql.tables := ∅ |} |};
     state_cache := ∅; backend := Sample.steady; fetches := [] |}.

(** A table whose second row lacks a cell, and a backend delivering it. *)
Definition ragged_psv : PSVFile :=
  {| header := ["Name"; "Path"];
     psv_rows := [["eu"; "tpr/hs"]; ["us"]] |}.

Definition keg_ragged : keg_world :=
  {| cache_db := {| Sql.working := Sample.cdns_db;
                    Sql.committed := Sample.cdns_db |};
     state_cache := ∅;
     backend := fun _ _ => Some (ragged_psv, Sample.cdns_response 7);
     fetches := [] |}.

(** A backend whose first answer is the ragged table, under digest [D0],
    and whose later answers are the sample table. *)
Definition keg_ragged_once : keg_world :=
  {| cache_db := {| Sql.working := Sample.cdns_db;
                    Sql.committed := Sample.cdns_db |};
     state_cache := ∅;
     backend := fun n _ =>
       match n with
       | O => Some (ragged_psv,
                    {| resp_path := "/cdns";
                       content := Sample.bytes "Name|Path";
                       timestamp := 1; digest := "D0" |})
       | S _ => Some (Sample.cdns_psv, Sample.cdns_response 2)
       end;
     fetches := [] |}.

End Scenario.

(** * Properties *)

(** ** Strings and paths *)

Section StringFacts.

Lemma str_take_get (n k : nat) (s : string) :
  String.get k (Py.str_take n s) = if k <? n then String.get k s else None.
Proof.
  revert k s. induction n as [|n IH]; intros k s.
  - destruct s; reflexivity.
  - destruct s as [|c s]; simpl.
    + destruct (k <? S n); reflexivity.
    + destruct k as [|k]; [reflexivity|]. apply IH.
Qed.

Lemma str_drop_get (n k : nat) (s : string) :
  String.get k (Py.str_drop n s) = String.get (n + k) s.
Proof.
  revert s. induction n as [|n IH]; intros s.
  - destruct s; reflexivity.
  - destruct s as [|c s]; simpl; [reflexivity | apply IH].
Qed.

(** Python's slice, position by position. *)
Lemma slice_get (s : string) (i j k : nat) :
  String.get k (Py.slice s i j) =
  if k <? j - i then String.get (i + k) s else None.
Proof.
  unfold Py.slice. rewrite str_take_get, str_drop_get. reflexivity.
Qed.

Lemma append_cons (x : ascii) (a b : string) :
  String x a +:+ b = String x (a +:+ b).
Proof. reflexivity. Qed.



Lemma os_path_join_relative (a b : string) :
  Py.startswith_slash b = false ->
  Py.os_path_join a b =
  a +:+ (if bool_decide (a = "") || Py.endswith_slash a then "" else "/") +:+ b.
Proof.
  intros H. unfold Py.os_path_join. rewrite H.
  destruct (bool_decide (a = "") || Py.endswith_slash a); reflexivity.
Qed.

End StringFacts.

(** C6. For a key of at least four characters (in particular every
    well-formed hex key of that length), [partition_hash key] is the first
    two characters, ["/"], the next two characters, ["/"], then the whole
    key; [key[0:2]] and [key[2:4]] are exactly those two pairs.  The function
    is a total function from strings to strings: it has no effect and no way
    to fail. *)
Theorem partition_hash_hex_key (key : string) (Hlen : 4 <= String.length key) :
  exists a b c d rest,
    key = String a (String b (String c (String d rest))) /\
    Py.slice key 0 2 = String a (String b "") /\
    Py.slice key 2 4 = String c (String d "") /\
    partition_hash key =
      String a (String b "") +:+ "/" +:+ String c (String d "") +:+ "/" +:+ key.
Proof.
  destruct key as [|a [|b [|c [|d rest]]]]; simpl in Hlen; try lia.
  exists a, b, c, d, rest. repeat split.
Qed.

Lemma partition_hash_hex_key_witness :
  4 <= String.length "abcdef0123" /\
  partition_hash "abcdef0123" = "ab/cd/abcdef0123".
Proof.
  assert (H : 4 <= String.length "abcdef0123") by (simpl; lia).
  split; [exact H|].
  destruct (partition_hash_hex_key "abcdef0123" H)
    as (a & b & c & d & rest & Hk & _ & _ & Hp).
  injection Hk as <- <- <- <- _. exact Hp.
Defined.

(** C9. [partition_hash] is defined on every string and never raises: the
    result is [hash[0:2]], ["/"], [hash[2:4]], ["/"], [hash], where a slice
    holds the characters of its range that exist.  On the empty key it is
    ["//"]; on keys of one, two and three characters it is built from the
    characters at hand. *)
Theorem partition_hash_total (key : string) :
  partition_hash key =
    Py.slice key 0 2 +:+ "/" +:+ Py.slice key 2 4 +:+ "/" +:+ key /\
  (forall k, String.get k (Py.slice key 0 2) =
             if k <? 2 then String.get k key else None) /\
  (forall k, String.get k (Py.slice key 2 4) =
             if k <? 2 then String.get (2 + k) key else None) /\
  partition_hash "" = "//" /\
  (forall a, partition_hash (String a "") =
             String a "" +:+ "//" +:+ String a "") /\
  (forall a b, partition_hash (String a (String b "")) =
               String a (String b "") +:+ "//" +:+ String a (String b "")) /\
  (forall a b c, partition_hash (String a (String b (String c ""))) =
                 String a (String b "") +:+ "/" +:+ String c "" +:+ "/"
                 +:+ String a (String b (String c ""))).
Proof.
  split; [reflexivity|].
  split; [intros k; rewrite slice_get; simpl; reflexivity|].
  split; [intros k; rewrite slice_get; simpl; reflexivity|].
  repeat split.
Qed.



(** ** [RemoteCDN] *)

(** C7. Constructing a [RemoteCDN] from a descriptor without servers raises
    at construction ([assert cdn.all_servers]); from a descriptor with
    servers it keeps the first one and the descriptor's path.  [get_item]
    then issues exactly one GET, to [{server}/{cdn_path}{path}], whatever the
    network answers: nothing is retried.  It returns the raw body of the
    answer, raises when the transport fails, and raises [KeyError] when the
    answer carries no content length. *)
Theorem RemoteCDN_first_server_single_get (cdn_path : string) :
  RemoteCDN.init {| CDNs.all_servers := []; CDNs.path := cdn_path |}
    = Raise AssertionError /\
  forall (s : string) (rest : list string),
    RemoteCDN.init {| CDNs.all_servers := s :: rest; CDNs.path := cdn_path |}
      = Ok {| RemoteCDN.server := s; RemoteCDN.path := cdn_path |} /\
    forall (path : string) (w : world),
      let self := {| RemoteCDN.server := s; RemoteCDN.path := cdn_path |} in
      let url := s +:+ "/" +:+ cdn_path +:+ path in
      let out := RemoteCDN.get_item self path w in
      requests (snd out) = requests w ++ [url] /\
      fs (snd out) = fs w /\
      fst out =
        match origin w (length (requests w)) url with
        | None => Raise ConnectionError
        | Some resp =>
            match content_length resp with
            | Some _ => Ok (raw resp)
            | None => Raise KeyError
            end
        end.
Proof.
  split; [reflexivity|]. intros s rest. split; [reflexivity|].
  intros path w. cbv zeta.
  unfold RemoteCDN.get_item, RemoteCDN.url, bind, print, modify, requests_get,
    RemoteCDN.header_content_length, ret, raise. simpl.
  destruct (origin w (length (requests w)) (s +:+ "/" +:+ cdn_path +:+ path))
    as [resp|]; simpl; [|auto].
  destruct (content_length resp); simpl; auto.
Qed.

(** ** [CacheableCDNWrapper]: the local checks *)

(** C8. [has_config], [has_data] and [has_index] return whether something
    exists locally at [config/{partition_hash(key)}],
    [data/{partition_hash(key)}] and [data/{partition_hash(key)}.index] under
    the base directory of the local CDN.  They leave the whole state as it
    is: no request is issued and the answer does not depend on the origin. *)
Theorem has_checks_are_local (self : CacheableCDNWrapper.t) (key : string)
    (w : world) :
  let base := LocalCDN.base_dir (CacheableCDNWrapper.local_cdn self) in
  CacheableCDNWrapper.has_config self key w =
    (Ok (Os.present (fs w)
           (Py.os_path_join base ("config/" +:+ partition_hash key))), w) /\
  CacheableCDNWrapper.has_data self key w =
    (Ok (Os.present (fs w)
           (Py.os_path_join base ("data/" +:+ partition_hash key))), w) /\
  CacheableCDNWrapper.has_index self key w =
    (Ok (Os.present (fs w)
           (Py.os_path_join base
              ("data/" +:+ partition_hash key +:+ ".index"))), w) /\
  LocalCDN.get_full_path (CacheableCDNWrapper.local_cdn self)
    ("/config/" +:+ partition_hash key) =
    Py.os_path_join base ("config/" +:+ partition_hash key).
Proof.
  destruct w as [f o r out]. destruct f as [fl ds]. repeat split.
Qed.

(** ** Streams *)

Section StreamFacts.

Lemma read_upto_ok (k : nat) (s s' : stream) (r : list byte) :
  Stream.read_upto k s = (Ok r, s') ->
  r = take k (pending s) /\ pending s' = drop k (pending s) /\
  closed s = false /\ closed s' = false.
Proof.
  unfold Stream.read_upto. destruct (closed s) eqn:Hc; [discriminate|].
  destruct (breaks_after s) as [b|].
  - destruct (b <? length (take k (pending s))); [discriminate|].
    intros [= <- <-]. auto.
  - intros [= <- <-]. auto.
Qed.

Lemma read_cases (amt : option Z) (s : stream) :
  exists k, Stream.read amt s = Stream.read_upto k s.
Proof.
  destruct amt as [n|]; simpl; [|eauto].
  destruct (n <? 0)%Z; eauto.
Qed.

(** A successful read hands out a prefix of the pending bytes and keeps
    the rest. *)
Lemma stream_read_ok (amt : option Z) (s s' : stream) (r : list byte) :
  Stream.read amt s = (Ok r, s') ->
  pending s = r ++ pending s' /\ closed s' = false.
Proof.
  destruct (read_cases amt s) as [k ->]. intros H.
  apply read_upto_ok in H as (-> & -> & _ & Hc).
  by rewrite take_drop.
Qed.

(** [obj.read()] hands out everything. *)
Lemma stream_read_all_ok (s s' : stream) (r : list byte) :
  Stream.read None s = (Ok r, s') -> r = pending s /\ pending s' = [].
Proof.
  simpl. intros H. apply read_upto_ok in H as (-> & -> & _ & _).
  by rewrite firstn_all, drop_all.
Qed.

Lemma stream_read_delivers (amt : option Z) (s : stream) :
  delivers s = true ->
  exists r s', Stream.read amt s = (Ok r, s') /\ delivers s' = true.
Proof.
  unfold delivers. intros H. apply andb_true_iff in H as [Hc Hb].
  apply negb_true_iff in Hc.
  destruct (read_cases amt s) as [k ->]. unfold Stream.read_upto.
  rewrite Hc. destruct (breaks_after s) as [b|].
  - apply Nat.leb_le in Hb.
    assert (Hl : length (take k (pending s)) <= length (pending s)).
    { rewrite length_take. lia. }
    destruct (b <? length (take k (pending s))) eqn:E.
    { apply Nat.ltb_lt in E. lia. }
    eexists _, _. split; [reflexivity|]. simpl.
    apply Nat.leb_le. rewrite length_drop, length_take. lia.
  - eexists _, _. split; [reflexivity|]. reflexivity.
Qed.

End StreamFacts.

(** ** [HTTPCacheWrapper] *)

Section CacheWriterFacts.

Import HTTPCacheWrapper.

Lemma length_append (a b : string) :
  String.length (a +:+ b) = String.length a + String.length b.
Proof.
  induction a as [|x a IH]; [reflexivity|].
  rewrite append_cons. simpl. by rewrite IH.
Qed.

Lemma temp_path_fresh (path : string) : path +:+ ".keg_temp" <> path.
Proof.
  intros E. apply (f_equal String.length) in E.
  rewrite length_append in E. simpl in E. lia.
Qed.

(** [read], step by step: the upstream is asked once; a non-empty answer
    is written to the cache file; the answer is returned. *)
Lemma read_unfold (n : Z) (self : t) (w : world) :
  read n (self, w) =
  match Stream.read (amount n) (_obj self) with
  | (Raise e, o') => (Raise e, (set_obj o' self, w))
  | (Ok [], o') => (Ok [], (set_obj o' self, w))
  | (Ok (b :: bs), o') =>
      match Os.write (_cache_file self) (b :: bs) (fs w) with
      | (Ok _, f') => (Ok (b :: bs), (set_obj o' self, set_fs f' w))
      | (Raise e, f') => (Raise e, (set_obj o' self, set_fs f' w))
      end
  end.
Proof.
  unfold read.
  replace (if (n =? -1)%Z then on_obj (Stream.read None)
           else on_obj (Stream.read (Some n)))
    with (on_obj (Stream.read (amount n)))
    by (unfold amount; destruct (n =? -1)%Z; reflexivity).
  unfold bind, on_obj, zoom, ret. cbn -[Stream.read Os.write amount].
  destruct (Stream.read (amount n) (_obj self)) as [[[|b bs]|e] o'];
    try reflexivity.
  unfold cache_file_write, on_world, on_fs, zoom.
  cbn -[Stream.read Os.write amount].
  destruct (Os.write (_cache_file self) (b :: bs) (fs w)) as [[u|e] f'];
    reflexivity.
Qed.

Lemma only_temp_touched_same_world (self self' : t) (w : world)
    (written : list byte) :
  _real_path self' = _real_path self ->
  _temp_path self' = _temp_path self ->
  files (fs w) !! _temp_path self = Some written ->
  only_temp_touched (self, w) (self', w).
Proof.
  intros Hr Ht H. unfold only_temp_touched. simpl. rewrite H. eauto 10.
Qed.

Lemma only_temp_touched_trans (st1 st2 st3 : state) :
  only_temp_touched st1 st2 -> only_temp_touched st2 st3 ->
  only_temp_touched st1 st3.
Proof.
  intros (Hr & Ht & Hd & Hf & Hs & Hq & Ho) (Hr' & Ht' & Hd' & Hf' & Hs' & Hq' & Ho').
  unfold only_temp_touched. rewrite Ht in *.
  repeat split; try congruence.
  intros p Hp. rewrite Hf', Hf; auto.
Qed.

(** One [read] while the writer is at work. *)
Lemma read_step (n : Z) (st : state) (written : list byte) :
  writing st written ->
  let up := Stream.read (amount n) (_obj (fst st)) in
  let out := read n st in
  only_temp_touched st (snd out) /\
  _obj (fst (snd out)) = snd up /\
  match fst up with
  | Ok bytes =>
      fst out = Ok bytes /\ writing (snd out) (written ++ bytes) /\
      (bytes = [] -> snd (snd out) = snd st)
  | Raise e =>
      fst out = Raise e /\ writing (snd out) written /\
      snd (snd out) = snd st
  end.
Proof.
  destruct st as [self w]. intros (Hopen & Hpath & Hne & Hfile). simpl in *.
  rewrite read_unfold.
  destruct (Stream.read (amount n) (_obj self)) as [[[|b bs]|e] o']; simpl.
  - split; [eapply only_temp_touched_same_world; eauto|].
    split; [reflexivity|]. rewrite app_nil_r.
    repeat split; auto.
  - unfold Os.write. rewrite Hopen, Hpath, Hfile. simpl.
    split.
    + unfold only_temp_touched. simpl.
      rewrite lookup_insert_eq.
      repeat split; eauto.
      intros p Hp. by rewrite lookup_insert_ne.
    + split; [reflexivity|]. split; [reflexivity|].
      split; [|discriminate].
      unfold writing. simpl. rewrite lookup_insert_eq. auto.
  - split; [eapply only_temp_touched_same_world; eauto|].
    repeat split; auto.
Qed.

Lemma read_ok_step (n : Z) (st st' : state) (written bytes : list byte) :
  writing st written ->
  read n st = (Ok bytes, st') ->
  only_temp_touched st st' /\ writing st' (written ++ bytes) /\
  Stream.read (amount n) (_obj (fst st)) = (Ok bytes, _obj (fst st')) /\
  pending (_obj (fst st)) = bytes ++ pending (_obj (fst st')).
Proof.
  intros Hw Hr. pose proof (read_step n st written Hw) as H.
  cbv zeta in H. rewrite Hr in H. simpl in H. destruct H as (Ht & Ho & H).
  destruct (Stream.read (amount n) (_obj (fst st))) as [[bytes'|e] o'] eqn:E;
    simpl in *; destruct H as (Hb & Hw' & _); [|discriminate].
  injection Hb as <-. subst o'.
  split; [exact Ht|]. split; [exact Hw'|]. split; [reflexivity|].
  apply stream_read_ok in E as [E _]. exact E.
Qed.

Lemma read_raise_step (n : Z) (st st' : state) (written : list byte)
    (e : exn) :
  writing st written ->
  read n st = (Raise e, st') ->
  only_temp_touched st st' /\ writing st' written /\ snd st' = snd st.
Proof.
  intros Hw Hr. pose proof (read_step n st written Hw) as H.
  cbv zeta in H. rewrite Hr in H. simpl in H. destruct H as (Ht & Ho & H).
  destruct (Stream.read (amount n) (_obj (fst st))) as [[bytes'|e'] o'];
    simpl in *; destruct H as (Hb & Hw' & Hs); [discriminate|auto].
Qed.

Lemma read_delivers (n : Z) (st : state) (written : list byte) :
  writing st written -> delivers (_obj (fst st)) = true ->
  exists bytes st',
    read n st = (Ok bytes, st') /\ delivers (_obj (fst st')) = true.
Proof.
  intros Hw Hd. pose proof (read_step n st written Hw) as H.
  cbv zeta in H. destruct H as (Ht & Ho & H).
  destruct (stream_read_delivers (amount n) _ Hd) as (r & s' & E & Hd').
  rewrite E in *. simpl in *. destruct H as (Hb & _).
  exists r, (snd (read n st)). split.
  - rewrite <- Hb. by destruct (read n st).
  - by rewrite Ho.
Qed.

(** Any number of reads while the writer is at work. *)
Lemma reads_steps (amounts : list Z) (st st' : state) (written : list byte)
    (r : result (list (list byte))) :
  writing st written ->
  reads amounts st = (r, st') ->
  only_temp_touched st st' /\
  match r with
  | Ok chunks =>
      writing st' (written ++ concat chunks) /\
      pending (_obj (fst st)) = concat chunks ++ pending (_obj (fst st'))
  | Raise _ => exists written', writing st' written'
  end.
Proof.
  revert st written r.
  induction amounts as [|n amounts IH]; intros st written r Hw Hrun.
  - injection Hrun as <- <-. simpl. rewrite app_nil_r. split; [|by auto].
    destruct st as [self w]. destruct Hw as (_ & _ & _ & Hf).
    eapply only_temp_touched_same_world; eauto.
  - simpl in Hrun. unfold bind at 1 in Hrun.
    destruct (read n st) as [[bytes|e] st1] eqn:Hr.
    + apply (read_ok_step _ _ _ _ _ Hw) in Hr as (Ht & Hw1 & _ & Hp).
      unfold bind, ret in Hrun.
      destruct (reads amounts st1) as [[chunks|e] st2] eqn:Hrest;
        injection Hrun as <- <-;
        destruct (IH st1 _ _ Hw1 Hrest) as [Ht' H].
      * split; [eapply only_temp_touched_trans; eauto|].
        destruct H as [Hw2 Hp2].
        change (concat (bytes :: chunks)) with (bytes ++ concat chunks).
        rewrite app_assoc. split; [done|].
        rewrite Hp, Hp2. by rewrite app_assoc.
      * split; [eapply only_temp_touched_trans; eauto | done].
    + injection Hrun as <- <-.
      apply (read_raise_step _ _ _ _ _ Hw) in Hr as (Ht & Hw1 & _).
      eauto.
Qed.

Lemma reads_deliver (amounts : list Z) (st : state) (written : list byte) :
  writing st written -> delivers (_obj (fst st)) = true ->
  exists chunks st',
    reads amounts st = (Ok chunks, st') /\
    delivers (_obj (fst st')) = true.
Proof.
  revert st written. induction amounts as [|n amounts IH]; intros st written Hw Hd.
  - exists [], st. auto.
  - destruct (read_delivers n st written Hw Hd) as (bytes & st1 & Hr & Hd1).
    destruct (read_ok_step _ _ _ _ _ Hw Hr) as (_ & Hw1 & _).
    destruct (IH st1 _ Hw1 Hd1) as (chunks & st2 & Hrest & Hd2).
    exists (bytes :: chunks), st2. simpl. unfold bind, ret.
    rewrite Hr, Hrest. auto.
Qed.


Lemma close_unfold (st : state) :
  close st =
  match read (-1) st with
  | (Raise e, st1) => (Raise e, st1)
  | (Ok _, st1) =>
      let self2 := set_cache_file (Os.close (_cache_file (fst st1))) (fst st1) in
      match Os.rename (_temp_path (fst st1)) (_real_path (fst st1))
                      (fs (snd st1)) with
      | (Raise e, f') => (Raise e, (self2, set_fs f' (snd st1)))
      | (Ok _, f') =>
          (Ok tt,
           (set_obj (snd (Stream.close (_obj self2))) self2,
            set_fs f' (snd st1)))
      end
  end.
Proof.
  unfold close, bind. destruct (read (-1) st) as [[bytes|e] [self1 w1]];
    [|reflexivity].
  unfold cache_file_close, modify, on_world, on_fs, on_obj, zoom.
  cbn -[Os.rename].
  destruct (Os.rename (_temp_path self1) (_real_path self1) (fs w1))
    as [[u|e] f']; reflexivity.
Qed.

(** A [close] that returns: the destination holds what was written plus
    the rest of the upstream, the temp file is gone, both ends are
    closed. *)
Lemma close_ok (st st' : state) (written : list byte) :
  writing st written ->
  close st = (Ok tt, st') ->
  files (fs (snd st')) !! _real_path (fst st)
    = Some (written ++ pending (_obj (fst st))) /\
  files (fs (snd st')) !! _temp_path (fst st) = None /\
  closed (_obj (fst st')) = true /\
  Os.wf_closed (_cache_file (fst st')) = true /\
  dirs (fs (snd st')) = dirs (fs (snd st)) /\
  (forall p, p <> _temp_path (fst st) -> p <> _real_path (fst st) ->
             files (fs (snd st')) !! p = files (fs (snd st)) !! p) /\
  requests (snd st') = requests (snd st) /\
  origin (snd st') = origin (snd st).
Proof.
  intros Hw Hc. rewrite close_unfold in Hc.
  destruct (read (-1) st) as [[bytes|e] st1] eqn:Hr; [|discriminate].
  destruct (read_ok_step _ _ _ _ _ Hw Hr)
    as ((Hreal & Htemp & Hdirs & Hfiles & _ & Hreq & Hor) & Hw1 & E & _).
  change (amount (-1)) with (@None Z) in E.
  apply stream_read_all_ok in E as [-> _].
  destruct Hw1 as (_ & _ & Hne & Hf1). rewrite Htemp, Hreal in *.
  cbv zeta in Hc. unfold Os.rename in Hc. rewrite Hf1 in Hc.
  destruct (Os.is_dir (fs st1.2) (_real_path st.1)); [discriminate|].
  injection Hc as <-. simpl.
  rewrite lookup_insert_eq, lookup_insert_ne, lookup_delete_eq by congruence.
  repeat split; auto.
  intros p Hp Hp'.
  rewrite lookup_insert_ne, lookup_delete_ne by congruence. auto.
Qed.


Lemma close_delivers (st : state) (written : list byte) :
  writing st written ->
  delivers (_obj (fst st)) = true ->
  Os.is_dir (fs (snd st)) (_real_path (fst st)) = false ->
  exists st', close st = (Ok tt, st').
Proof.
  intros Hw Hd Hdir. rewrite close_unfold.
  destruct (read_delivers (-1) st written Hw Hd) as (bytes & st1 & Hr & _).
  rewrite Hr.
  destruct (read_ok_step _ _ _ _ _ Hw Hr)
    as ((Hreal & Htemp & Hdirs & _) & Hw1 & _).
  destruct Hw1 as (_ & _ & Hne & Hf1).
  cbv zeta. unfold Os.rename. rewrite Hf1.
  unfold Os.is_dir in *. rewrite Hdirs, Hreal, Hdir. eauto.
Qed.


Lemma on_fs_run {A} (m : M filesystem A) (w : world) :
  on_fs m w = (fst (m (fs w)), set_fs (snd (m (fs w))) w).
Proof. unfold on_fs, zoom. by destruct (m (fs w)). Qed.

Lemma makedirs_files (p : string) (f f' : filesystem) (u : unit) :
  Os.makedirs p f = (Ok u, f') -> files f' = files f.
Proof.
  unfold Os.makedirs.
  repeat match goal with
         | |- (if ?c then _ else _) = _ -> _ => destruct c; [discriminate|]
         end.
  intros H. inversion H. reflexivity.
Qed.

Lemma open_wb_ok (p : string) (f f' : filesystem) (h : Os.wfile) :
  Os.open_wb p f = (Ok h, f') ->
  h = {| Os.wf_path := p; Os.wf_closed := false |} /\
  files f' = <[ p := [] ]> (files f) /\ dirs f' = dirs f /\
  Os.is_dir f p = false.
Proof.
  unfold Os.open_wb. destruct (Os.is_dir f p); [discriminate|].
  repeat match goal with
         | |- (if ?c then _ else _) = _ -> _ => destruct c; try discriminate
         end.
  by intros [= <- <-].
Qed.

(** A constructed writer is at work on an empty temp file next to the
    destination; no other file was touched and no request was issued. *)
Lemma init_ok (obj : stream) (path : string) (w w1 : world) (self : t) :
  init obj path w = (Ok self, w1) ->
  _obj self = obj /\ _real_path self = path /\
  _temp_path self = path +:+ ".keg_temp" /\
  writing (self, w1) [] /\
  (forall p, p <> path +:+ ".keg_temp" ->
             files (fs w1) !! p = files (fs w) !! p) /\
  requests w1 = requests w /\ origin w1 = origin w /\
  Os.is_dir (fs w1) (path +:+ ".keg_temp") = false.
Proof.
  intros H. unfold init, bind in H. rewrite on_fs_run in H.
  unfold Os.path_exists, gets in H. cbn [fst snd] in H.
  set (w0 := set_fs (fs w) w) in H.
  destruct ((if negb (Os.present (fs w) (Py.os_path_dirname path))
             then on_fs (Os.makedirs (Py.os_path_dirname path))
             else ret ()) w0) as [[u|e] wa] eqn:Hm; [|discriminate].
  assert (Hwa : files (fs wa) = files (fs w) /\ requests wa = requests w /\
                origin wa = origin w).
  { destruct (negb (Os.present (fs w) (Py.os_path_dirname path))).
    - rewrite on_fs_run in Hm.
      destruct (Os.makedirs (Py.os_path_dirname path) (fs w0))
        as [[u'|e'] f'] eqn:Hmk; [|discriminate].
      injection Hm as <-. apply makedirs_files in Hmk. subst wa.
      simpl. auto.
    - unfold ret in Hm. inversion Hm. auto. }
  destruct Hwa as (Hfiles & Hreq & Hor).
  rewrite on_fs_run in H.
  destruct (Os.open_wb (path +:+ ".keg_temp") (fs wa)) as [[h|e] f'] eqn:Ho;
    [|discriminate].
  unfold ret in H. injection H as <- <-.
  apply open_wb_ok in Ho as (-> & Hf' & Hd' & Hnd). simpl.
  repeat split; auto using temp_path_fresh.
  - apply temp_path_fresh.
  - simpl. rewrite Hf'. apply lookup_insert_eq.
  - intros p Hp. rewrite Hf', lookup_insert_ne by congruence. congruence.
  - unfold Os.is_dir in *. by rewrite Hd'.
Qed.

(** Reads followed by a [close] that returns. *)
Lemma reads_then_close_ok (obj : stream) (path : string) (w w1 : world)
    (self : t) (amounts : list Z) (chunks : list (list byte)) (st' : state) :
  init obj path w = (Ok self, w1) ->
  reads_then_close amounts (self, w1) = (Ok chunks, st') ->
  files (fs (snd st')) !! path = Some (pending obj) /\
  files (fs (snd st')) !! (path +:+ ".keg_temp") = None /\
  dirs (fs (snd st')) = dirs (fs w1) /\
  (exists rest, pending obj = concat chunks ++ rest) /\
  closed (_obj (fst st')) = true /\
  Os.wf_closed (_cache_file (fst st')) = true.
Proof.
  intros Hinit Hrun.
  destruct (init_ok _ _ _ _ _ Hinit) as (Hobj & Hreal & Htemp & Hw & _).
  unfold reads_then_close, bind in Hrun.
  destruct (reads amounts (self, w1)) as [[chunks'|e] st1] eqn:Hreads;
    [|discriminate].
  destruct (reads_steps _ _ _ _ _ Hw Hreads)
    as ((Hr & Ht & Hds & _) & Hw1 & Hp).
  simpl in Hw1, Hp, Hr, Ht, Hds.
  destruct (close st1) as [[[]|e] st2] eqn:Hclose; [|discriminate].
  unfold ret in Hrun. injection Hrun as <- <-.
  destruct (close_ok _ _ _ Hw1 Hclose) as (Hd & Hgone & Hc & Hcf & Hds' & _).
  rewrite Hr, Hreal in Hd. rewrite Ht, Htemp in Hgone.
  rewrite Hobj in Hp. rewrite Hp. rewrite Hds', Hds. eauto 10.
Qed.

End CacheWriterFacts.

Lemma run_ok {S A} (x : result A * S) (a : A) :
  fst x = Ok a -> x = (Ok a, snd x).
Proof. destruct x as [r s]. simpl. by intros ->. Qed.

Lemma run_raise {S A} (x : result A * S) (e : exn) :
  fst x = Raise e -> x = (Raise e, snd x).
Proof. destruct x as [r s]. simpl. by intros ->. Qed.

(** C4. Once an [HTTPCacheWrapper] is constructed, its temp file is empty.
    Each [read] asks the upstream once and returns exactly what the upstream
    returned (or raises what it raised); bytes that were returned are
    appended to the temp file, and an empty answer changes nothing.  [close]
    drains the upstream, closes the cache file, renames the temp file to the
    destination and closes the upstream, in this order.  Hence, whenever any
    sequence of reads followed by [close] returns, the destination holds the
    entire upstream byte sequence, the temp file is gone and the chunks
    returned to the caller are a prefix of that sequence; and it does return
    when the upstream delivers its bytes and the destination is not a
    directory. *)
Theorem cache_writer_tee_and_publish (obj : stream) (path : string)
    (w w1 : world) (self : HTTPCacheWrapper.t)
    (Hinit : HTTPCacheWrapper.init obj path w = (Ok self, w1)) :
  writing (self, w1) [] /\
  (forall (n : Z) (st : HTTPCacheWrapper.state) (written : list byte),
     writing st written ->
     let up := Stream.read (amount n) (HTTPCacheWrapper._obj (fst st)) in
     let out := HTTPCacheWrapper.read n st in
     HTTPCacheWrapper._obj (fst (snd out)) = snd up /\
     match fst up with
     | Ok bytes =>
         fst out = Ok bytes /\ writing (snd out) (written ++ bytes) /\
         (bytes = [] -> snd (snd out) = snd st)
     | Raise e =>
         fst out = Raise e /\ writing (snd out) written /\
         snd (snd out) = snd st
     end) /\
  (forall st : HTTPCacheWrapper.state,
     HTTPCacheWrapper.close st =
     match HTTPCacheWrapper.read (-1) st with
     | (Raise e, st1) => (Raise e, st1)
     | (Ok _, st1) =>
         let self2 :=
           HTTPCacheWrapper.set_cache_file
             (Os.close (HTTPCacheWrapper._cache_file (fst st1))) (fst st1) in
         match Os.rename (HTTPCacheWrapper._temp_path (fst st1))
                         (HTTPCacheWrapper._real_path (fst st1))
                         (fs (snd st1)) with
         | (Raise e, f') => (Raise e, (self2, set_fs f' (snd st1)))
         | (Ok _, f') =>
             (Ok tt,
              (HTTPCacheWrapper.set_obj
                 (snd (Stream.close (HTTPCacheWrapper._obj self2))) self2,
               set_fs f' (snd st1)))
         end
     end) /\
  (forall (amounts : list Z) (chunks : list (list byte))
          (st' : HTTPCacheWrapper.state),
     reads_then_close amounts (self, w1) = (Ok chunks, st') ->
     files (fs (snd st')) !! path = Some (pending obj) /\
     files (fs (snd st')) !! (path +:+ ".keg_temp") = None /\
     (exists rest, pending obj = concat chunks ++ rest) /\
     closed (HTTPCacheWrapper._obj (fst st')) = true /\
     Os.wf_closed (HTTPCacheWrapper._cache_file (fst st')) = true) /\
  (delivers obj = true -> Os.is_dir (fs w1) path = false ->
   forall amounts : list Z,
   exists chunks st', reads_then_close amounts (self, w1) = (Ok chunks, st')).
Proof.
  destruct (init_ok _ _ _ _ _ Hinit) as (Hobj & Hreal & Htemp & Hw & _).
  split; [exact Hw|].
  split; [intros n st written Hst; apply (read_step n st written Hst)|].
  split; [apply close_unfold|].
  split.
  - intros amounts chunks st' Hrun.
    destruct (reads_then_close_ok _ _ _ _ _ _ _ _ Hinit Hrun)
      as (Hd & Hgone & _ & Hpre & Hc & Hcf).
    auto.
  - intros Hdel Hdir amounts.
    assert (Hdel' : delivers (HTTPCacheWrapper._obj (fst (self, w1))) = true)
      by (simpl; by rewrite Hobj).
    destruct (reads_deliver amounts _ _ Hw Hdel') as (chunks & st1 & Hreads & Hd1).
    destruct (reads_steps _ _ _ _ _ Hw Hreads) as ((Hr & Ht & Hds & _) & Hw1 & _).
    destruct (close_delivers st1 _ Hw1 Hd1) as (st2 & Hclose).
    { unfold Os.is_dir in *. rewrite Hds, Hr. simpl. by rewrite Hreal. }
    exists chunks, st2. unfold reads_then_close, bind, ret.
    by rewrite Hreads, Hclose.
Qed.

Lemma cache_writer_tee_and_publish_witness :
  exists self w1 chunks st',
    HTTPCacheWrapper.init Sample.body "d/x" Sample.empty_cache = (Ok self, w1) /\
    reads_then_close [2; 0; -1]%Z (self, w1) = (Ok chunks, st') /\
    files (fs (snd st')) !! "d/x" = Some (Sample.bytes "hello world").
Proof.
  pose (r := HTTPCacheWrapper.init Sample.body "d/x" Sample.empty_cache).
  pose (self :=
    {| HTTPCacheWrapper._obj := Sample.body;
       HTTPCacheWrapper._real_path := "d/x";
       HTTPCacheWrapper._temp_path := "d/x.keg_temp";
       HTTPCacheWrapper._cache_file :=
         {| Os.wf_path := "d/x.keg_temp"; Os.wf_closed := false |} |}).
  assert (Hinit : r = (Ok self, snd r)) by (apply run_ok; reflexivity).
  unfold r in Hinit at 1.
  destruct (cache_writer_tee_and_publish _ _ _ _ _ Hinit)
    as (_ & _ & _ & Hpub & Hret).
  destruct (Hret eq_refl eq_refl [2; 0; -1]%Z) as (chunks & st' & Hrun).
  exists self, (snd r), chunks, st'.
  split; [exact Hinit|]. split; [exact Hrun|].
  apply (Hpub _ _ _ Hrun).
Defined.




(** ** [CacheableCDNWrapper.get_item] *)

Section CachingFacts.

Lemma set_fs_same (w : world) : set_fs (fs w) w = w.
Proof. by destruct w. Qed.

Lemma exists_run (self : LocalCDN.t) (path : string) (w : world) :
  LocalCDN.exists_ self path w =
  (Ok (Os.present (fs w) (LocalCDN.get_full_path self path)), w).
Proof.
  unfold LocalCDN.exists_. rewrite on_fs_run. simpl. by rewrite set_fs_same.
Qed.

Lemma local_get_item_run (self : LocalCDN.t) (path : string) (w w' : world)
    (s : stream) :
  LocalCDN.get_item self path w = (Ok s, w') ->
  w' = w /\
  exists content,
    files (fs w) !! LocalCDN.get_full_path self path = Some content /\
    s = Stream.of_bytes content.
Proof.
  unfold LocalCDN.get_item, bind. rewrite on_fs_run. unfold Os.open_rb.
  destruct (files (fs w) !! LocalCDN.get_full_path self path) as [c|] eqn:E.
  - simpl. rewrite set_fs_same. intros [= <- <-]. eauto.
  - destruct (Os.is_dir (fs w) _); [discriminate|].
    destruct (existsb _ _); discriminate.
Qed.

Lemma local_get_item_file (self : LocalCDN.t) (path : string) (w : world)
    (content : list byte) :
  files (fs w) !! LocalCDN.get_full_path self path = Some content ->
  LocalCDN.get_item self path w = (Ok (Stream.of_bytes content), w).
Proof.
  intros E. unfold LocalCDN.get_item, bind. rewrite on_fs_run.
  unfold Os.open_rb. rewrite E. simpl. by rewrite set_fs_same.
Qed.

(** [RemoteCDN.get_item] logs one request, whatever comes back. *)
Lemma remote_get_item_log (self : RemoteCDN.t) (path : string) (w : world) :
  requests (snd (RemoteCDN.get_item self path w)) =
    requests w ++ [RemoteCDN.url self path] /\
  fs (snd (RemoteCDN.get_item self path w)) = fs w.
Proof.
  unfold RemoteCDN.get_item, bind, print, modify, requests_get,
    RemoteCDN.header_content_length, ret, raise. simpl.
  destruct (origin w (length (requests w)) (RemoteCDN.url self path))
    as [resp|]; simpl; [|auto].
  destruct (content_length resp); simpl; auto.
Qed.

(** The call that finds the path cached. *)
Lemma get_item_hit (self : CacheableCDNWrapper.t) (path : string)
    (w : world) :
  Os.present (fs w)
    (LocalCDN.get_full_path (CacheableCDNWrapper.local_cdn self) path)
    = true ->
  CacheableCDNWrapper.get_item self path w =
  LocalCDN.get_item (CacheableCDNWrapper.local_cdn self) path w.
Proof.
  intros H. unfold CacheableCDNWrapper.get_item, bind at 1.
  rewrite exists_run, H. reflexivity.
Qed.

End CachingFacts.

(** C3, as stated, fails: when the path is cached before the first call,
    neither call asks the remote. *)
Lemma cached_path_is_never_fetched : ~ two_gets_fetch_once.
Proof.
  intros H.
  pose (s := Stream.of_bytes (Sample.bytes "old")).
  assert (H1 : CacheableCDNWrapper.get_item Sample.cdn "/x" Sample.cached
               = (Ok s, Sample.cached)) by reflexivity.
  destruct (H _ _ _ _ _ _ _ H1 H1) as [_ Hcount].
  simpl in Hcount. lia.
Qed.

(** C3 (amended). When a call of [get_item] returns, the path is cached:
    the call returned the local copy, and a second call returns the very
    same content without asking the remote and without changing anything.
    Across both calls the remote was asked once, for
    [{server}/{cdn_path}{path}], when the path was not cached before the
    first call, and not at all when it was. *)
Theorem get_item_twice (self : CacheableCDNWrapper.t) (path : string)
    (w w1 : world) (s1 : stream)
    (Hfirst : CacheableCDNWrapper.get_item self path w = (Ok s1, w1)) :
  let full :=
    LocalCDN.get_full_path (CacheableCDNWrapper.local_cdn self) path in
  CacheableCDNWrapper.get_item self path w1 = (Ok s1, w1) /\
  (exists content,
     files (fs w1) !! full = Some content /\ s1 = Stream.of_bytes content) /\
  requests w1 =
    requests w ++
    (if Os.present (fs w) full then []
     else [RemoteCDN.url (CacheableCDNWrapper.remote_cdn self) path]).
Proof.
  cbv zeta.
  set (full := LocalCDN.get_full_path (CacheableCDNWrapper.local_cdn self) path).
  assert (Hlocal : forall wc : world,
            LocalCDN.get_item (CacheableCDNWrapper.local_cdn self) path wc
              = (Ok s1, w1) ->
            CacheableCDNWrapper.get_item self path w1 = (Ok s1, w1) /\
            (exists content,
               files (fs w1) !! full = Some content /\
               s1 = Stream.of_bytes content) /\
            w1 = wc).
  { intros wc Hget. apply local_get_item_run in Hget as (-> & c & Hc & ->).
    split; [|eauto].
    rewrite get_item_hit.
    - by apply local_get_item_file.
    - unfold Os.present, Os.is_file. rewrite Hc.
      rewrite bool_decide_eq_true_2 by eauto. reflexivity. }
  destruct (Os.present (fs w) full) eqn:Hp.
  - rewrite get_item_hit in Hfirst by exact Hp.
    destruct (Hlocal _ Hfirst) as (H2 & Hc & ->).
    rewrite app_nil_r. auto.
  - unfold CacheableCDNWrapper.get_item, bind at 1 in Hfirst.
    rewrite exists_run in Hfirst. fold full in Hfirst. rewrite Hp in Hfirst.
    simpl negb in Hfirst. cbv iota in Hfirst. unfold bind at 1 2 in Hfirst.
    pose proof (remote_get_item_log (CacheableCDNWrapper.remote_cdn self)
                  path w) as [Hlog _].
    destruct (RemoteCDN.get_item (CacheableCDNWrapper.remote_cdn self) path w)
      as [[obj|e] wa]; [|discriminate]. simpl in Hlog.
    unfold bind at 1 in Hfirst.
    destruct (HTTPCacheWrapper.init obj full wa) as [[f|e] wb] eqn:Hinit;
      [|discriminate].
    destruct (init_ok _ _ _ _ _ Hinit) as (_ & _ & _ & Hw & _ & Hreq & _).
    unfold HTTPCacheWrapper.run in Hfirst.
    destruct (HTTPCacheWrapper.close (f, wb)) as [[[]|e] st] eqn:Hclose;
      [|discriminate].
    destruct (close_ok _ _ _ Hw Hclose) as (_ & _ & _ & _ & _ & _ & Hreq' & _).
    simpl in Hreq'.
    destruct (Hlocal _ Hfirst) as (H2 & Hc & ->).
    rewrite Hreq', Hreq, Hlog. auto.
Qed.

Lemma get_item_twice_witness :
  exists s1 w1,
    CacheableCDNWrapper.get_item Sample.cdn "/x" Sample.fresh = (Ok s1, w1) /\
    CacheableCDNWrapper.get_item Sample.cdn "/x" w1 = (Ok s1, w1) /\
    pending s1 = Sample.bytes "hello world" /\
    requests w1 = ["http://s/p/x"].
Proof.
  pose (r := CacheableCDNWrapper.get_item Sample.cdn "/x" Sample.fresh).
  assert (Hfirst : r = (Ok Sample.body, snd r)) by (apply run_ok; reflexivity).
  unfold r in Hfirst at 1.
  destruct (get_item_twice _ _ _ _ _ Hfirst) as (Hsecond & _ & Hreq).
  exists Sample.body, (snd r).
  split; [exact Hfirst|]. split; [exact Hsecond|]. split; [reflexivity|].
  exact Hreq.
Defined.

(** ** The orchestrator and the relational store *)

Section StoreFacts.

Lemma tagged_true (remote key : string) (r : Sql.psv_row) :
  Sql.tagged remote key r = true <->
  Sql.p_remote r = remote /\ Sql.p_key r = key.
Proof.
  unfold Sql.tagged. rewrite andb_true_iff, !bool_decide_eq_true. tauto.
Qed.

Lemma tagged_rows_app (remote key : string) (l1 l2 : list Sql.psv_row) :
  tagged_rows remote key (l1 ++ l2) =
  tagged_rows remote key l1 ++ tagged_rows remote key l2.
Proof. apply filter_app. Qed.

Lemma tagged_rows_of (header : list string) (remote key : string) (i : Z)
    (rows : list (list string)) :
  tagged_rows remote key (rows_of header remote key i rows) =
  rows_of header remote key i rows.
Proof.
  revert i. induction rows as [|row rows IH]; intros i; [reflexivity|].
  simpl. unfold tagged_rows in *. rewrite filter_cons_True.
  - by rewrite IH.
  - apply tagged_true. auto.
Qed.

Lemma tagged_rows_of_other (header : list string) (remote key key' : string)
    (i : Z) (rows : list (list string)) :
  key <> key' ->
  tagged_rows remote key' (rows_of header remote key i rows) = [].
Proof.
  intros Hne. revert i.
  induction rows as [|row rows IH]; intros i; [reflexivity|].
  simpl. unfold tagged_rows in *. rewrite filter_cons_False; [apply IH|].
  rewrite tagged_true. simpl. intros [_ E]. congruence.
Qed.

Lemma tagged_rows_deleted (remote key : string) (l : list Sql.psv_row) :
  tagged_rows remote key
    (filter (fun r => Sql.tagged remote key r = false) l) = [].
Proof.
  induction l as [|r l IH]; [reflexivity|].
  destruct (Sql.tagged remote key r) eqn:E.
  - rewrite filter_cons_False by congruence. exact IH.
  - rewrite filter_cons_True by exact E.
    unfold tagged_rows in *. rewrite filter_cons_False by congruence.
    exact IH.
Qed.

Lemma tagged_rows_deleted_other (remote key key' : string)
    (l : list Sql.psv_row) :
  key <> key' ->
  tagged_rows remote key'
    (filter (fun r => Sql.tagged remote key r = false) l) =
  tagged_rows remote key' l.
Proof.
  intros Hne. induction l as [|r l IH]; [reflexivity|].
  destruct (Sql.tagged remote key r) eqn:E.
  - rewrite filter_cons_False by congruence.
    apply tagged_true in E as [E1 E2].
    unfold tagged_rows in *. rewrite (filter_cons_False _ r); [exact IH|].
    rewrite tagged_true. intros [_ E]. congruence.
  - rewrite filter_cons_True by exact E.
    unfold tagged_rows in *.
    destruct (Sql.tagged remote key' r) eqn:E'.
    + rewrite !filter_cons_True by exact E'. by rewrite IH.
    + rewrite !filter_cons_False by congruence. exact IH.
Qed.


Lemma on_db_run {A} (m : M Sql.database A) (w : keg_world) :
  on_db m w = (fst (m (store w)), set_working (snd (m (store w))) w).
Proof.
  unfold on_db, Sql.on_working, zoom, store. by destruct (m _).
Qed.

Lemma delete_rows_ok (t remote key : string) (db db' : Sql.database)
    (u : unit) :
  Sql.delete_rows t remote key db = (Ok u, db') ->
  exists tbl,
    Sql.tables db !! t = Some tbl /\
    Sql.responses db' = Sql.responses db /\
    Sql.tables db' =
      <[ t := {| Sql.t_columns := Sql.t_columns tbl;
                 Sql.t_rows :=
                   filter (fun r => Sql.tagged remote key r = false)
                          (Sql.t_rows tbl) |} ]> (Sql.tables db).
Proof.
  unfold Sql.delete_rows. case_bool_decide; [discriminate|].
  destruct (Sql.tables db !! t) as [tbl|]; [|discriminate].
  intros Hrun. inversion Hrun. eauto.
Qed.

Lemma insert_row_ok (t : string) (header : list string)
    (remote key : string) (i : Z) (row : list string)
    (db db' : Sql.database) (u : unit) :
  Sql.insert_row t header remote key i row db = (Ok u, db') ->
  exists tbl,
    Sql.tables db !! t = Some tbl /\
    Sql.responses db' = Sql.responses db /\
    Sql.tables db' =
      <[ t := {| Sql.t_columns := Sql.t_columns tbl;
                 Sql.t_rows := Sql.t_rows tbl ++ rows_of header remote key i [row]
              |} ]> (Sql.tables db).
Proof.
  unfold Sql.insert_row. case_bool_decide; [discriminate|].
  destruct (Sql.tables db !! t) as [tbl|]; [|discriminate].
  repeat match goal with
         | |- (if ?c then _ else _) = _ -> _ => destruct c; try discriminate
         end.
  intros Hrun. inversion Hrun. eauto.
Qed.

Lemma insert_rows_ok (t : string) (header : list string)
    (remote key : string) (rows : list (list string)) :
  forall (i : Z) (db db' : Sql.database) (tbl : Sql.psv_table) (u : unit),
    Sql.insert_rows t header remote key i rows db = (Ok u, db') ->
    Sql.tables db !! t = Some tbl ->
    Sql.responses db' = Sql.responses db /\
    Sql.tables db' !! t =
      Some {| Sql.t_columns := Sql.t_columns tbl;
              Sql.t_rows := Sql.t_rows tbl
                            ++ rows_of header remote key i rows |} /\
    (forall t', t' <> t -> Sql.tables db' !! t' = Sql.tables db !! t').
Proof.
  induction rows as [|row rows IH]; intros i db db' tbl u Hrun Htbl.
  - inversion Hrun. subst. simpl. rewrite app_nil_r.
    destruct tbl. auto.
  - simpl in Hrun. unfold bind in Hrun.
    destruct (Sql.insert_row t header remote key i row db)
      as [[u1|e] db1] eqn:Hrow; [|discriminate].
    apply insert_row_ok in Hrow as (tbl' & Htbl' & Hresp & Htabs).
    rewrite Htbl in Htbl'. injection Htbl' as <-.
    assert (Hnext : Sql.tables db1 !! t =
              Some {| Sql.t_columns := Sql.t_columns tbl;
                      Sql.t_rows := Sql.t_rows tbl
                                    ++ rows_of header remote key i [row] |})
      by (rewrite Htabs; apply lookup_insert_eq).
    destruct (IH _ _ _ _ _ Hrun Hnext) as (Hresp' & Hlook & Hother).
    split; [congruence|]. split.
    + rewrite Hlook. simpl. by rewrite <- app_assoc.
    + intros t' Hne. rewrite Hother, Htabs by exact Hne.
      by rewrite lookup_insert_ne.
Qed.


(** What one [get_psv] that returns has done. *)
Lemma get_psv_effect (self : Keg.t) (path : string) (w w' : keg_world)
    (p : PSVFile) (r : Response) :
  Keg.get_psv self path w = (Ok (p, r), w') ->
  exists tbl,
    Sql.tables (store w) !! Py.strip_slash path = Some tbl /\
    Sql.tables (store w') !! Py.strip_slash path =
      Some {| Sql.t_columns := Sql.t_columns tbl;
              Sql.t_rows :=
                filter (fun x => Sql.tagged (Keg.remote self) (digest r) x
                                 = false) (Sql.t_rows tbl)
                ++ rows_of (header p) (Keg.remote self) (digest r) 0
                           (psv_rows p) |} /\
    (forall t', t' <> Py.strip_slash path ->
                Sql.tables (store w') !! t' = Sql.tables (store w) !! t') /\
    Sql.responses (store w') =
      Sql.responses (store w) ++ [record_for self path r] /\
    Sql.committed (cache_db w') = store w' /\
    fetches w' = fetches w ++ [Keg.remote self +:+ path] /\
    backend w' = backend w /\
    backend w (length (fetches w)) (Keg.remote self +:+ path) = Some (p, r).
Proof.
  intros Hrun. unfold Keg.get_psv in Hrun. unfold bind at 1 in Hrun.
  unfold HttpBackend.get_psv in Hrun.
  destruct (backend w (length (fetches w)) (Keg.remote self +:+ path))
    as [[p0 r0]|] eqn:Hback; [|discriminate].
  unfold bind at 1 in Hrun. unfold StateCache.write_to_cache, modify in Hrun.
  unfold bind at 1 in Hrun. rewrite on_db_run in Hrun.
  match type of Hrun with
  | context [Sql.delete_rows ?t ?a ?b ?d] =>
      destruct (Sql.delete_rows t a b d) as [[u1|e1] db1] eqn:Hdel;
        [|discriminate]
  end.
  cbn [fst snd] in Hrun. unfold bind at 1 in Hrun.
  rewrite on_db_run in Hrun.
  match type of Hrun with
  | context [Sql.insert_rows ?t ?h ?a ?b ?i ?rows ?d] =>
      destruct (Sql.insert_rows t h a b i rows d) as [[u2|e2] db2] eqn:Hins;
        [|discriminate]
  end.
  cbn [fst snd] in Hrun. unfold bind at 1 in Hrun.
  rewrite on_db_run in Hrun. unfold Sql.insert_response, modify in Hrun.
  cbn [fst snd] in Hrun. unfold bind, db_commit, zoom, Sql.commit, modify, ret in Hrun.
  cbn in Hrun. injection Hrun as <- <- <-.
  cbn in Hdel, Hins.
  apply delete_rows_ok in Hdel as (tbl & Htbl & Hresp1 & Htabs1).
  assert (Hnext : Sql.tables db1 !! Py.strip_slash path =
            Some {| Sql.t_columns := Sql.t_columns tbl;
                    Sql.t_rows :=
                      filter (fun x => Sql.tagged (Keg.remote self)
                                         (digest r0) x = false)
                             (Sql.t_rows tbl) |})
    by (rewrite Htabs1; apply lookup_insert_eq).
  destruct (insert_rows_ok _ _ _ _ _ _ _ _ _ _ Hins Hnext)
    as (Hresp2 & Hlook & Hother).
  exists tbl. unfold store. cbn.
  split; [exact Htbl|]. split; [exact Hlook|].
  split.
  { intros t' Hne. rewrite Hother, Htabs1 by exact Hne.
    by rewrite lookup_insert_ne. }
  split; [by rewrite Hresp2, Hresp1|].
  auto.
Qed.

End StoreFacts.

(** C1, as stated, fails in its second half: [get_psv] deletes and
    re-inserts the rows of the (remote, digest) but only ever inserts into
    [responses].  Two fetches that come back with the same digest leave two
    response records for it. *)
Lemma same_digest_two_records : ~ same_digest_one_record.
Proof.
  intros H.
  pose (a := Keg.get_psv Sample.keg "/cdns" Sample.keg_start).
  assert (H1 : a = (Ok (Sample.cdns_psv, Sample.cdns_response 0), snd a))
    by (apply run_ok; reflexivity).
  unfold a in H1 at 1.
  pose (b := Keg.get_psv Sample.keg "/cdns" (snd a)).
  assert (H2 : b = (Ok (Sample.cdns_psv, Sample.cdns_response 1), snd b))
    by (apply run_ok; reflexivity).
  unfold b in H2 at 1.
  specialize (H _ _ _ _ _ _ _ _ _ H1 H2 eq_refl).
  vm_compute in H. discriminate.
Qed.

(** C1 (amended). Two fetches of a tabular path through [get_psv] that
    return append one response record each, in order, whatever the digests:
    with two different digests each digest gets one more record, with the
    same digest that digest gets two more.  In the table named for the path
    the rows of the second digest are exactly the rows of the second table:
    with the same digest the second row set has fully replaced the first
    (delete, then insert).  With two different digests the rows of the first
    digest are still exactly the rows of the first table.  Everything is
    committed. *)
Theorem get_psv_twice (self : Keg.t) (path : string) (w0 w1 w2 : keg_world)
    (p1 p2 : PSVFile) (r1 r2 : Response)
    (H1 : Keg.get_psv self path w0 = (Ok (p1, r1), w1))
    (H2 : Keg.get_psv self path w1 = (Ok (p2, r2), w2)) :
  let name := Py.strip_slash path in
  let remote := Keg.remote self in
  Sql.responses (store w2) =
    Sql.responses (store w0)
    ++ [record_for self path r1; record_for self path r2] /\
  row_set (store w2) name remote (digest r2) =
    rows_of (header p2) remote (digest r2) 0 (psv_rows p2) /\
  (digest r1 <> digest r2 ->
   row_set (store w2) name remote (digest r1) =
     rows_of (header p1) remote (digest r1) 0 (psv_rows p1) /\
   length (records_of (store w2) remote (digest r1)) =
     length (records_of (store w0) remote (digest r1)) + 1 /\
   length (records_of (store w2) remote (digest r2)) =
     length (records_of (store w0) remote (digest r2)) + 1) /\
  (digest r1 = digest r2 ->
   length (records_of (store w2) remote (digest r2)) =
     length (records_of (store w0) remote (digest r2)) + 2) /\
  Sql.committed (cache_db w2) = store w2.
Proof.
  cbv zeta.
  destruct (get_psv_effect _ _ _ _ _ _ H1)
    as (t0 & Ht0 & Ht1 & _ & Hresp1 & _).
  destruct (get_psv_effect _ _ _ _ _ _ H2)
    as (t1 & Ht1' & Ht2 & _ & Hresp2 & Hcommit & _).
  rewrite Ht1 in Ht1'. injection Ht1' as <-. simpl in Ht2.
  assert (Hresp : Sql.responses (store w2) =
            Sql.responses (store w0)
            ++ [record_for self path r1; record_for self path r2])
    by (rewrite Hresp2, Hresp1, <- app_assoc; reflexivity).
  split; [exact Hresp|].
  split.
  { unfold row_set. rewrite Ht2. simpl.
    by rewrite tagged_rows_app, tagged_rows_deleted, tagged_rows_of. }
  assert (Hrec : forall key,
            records_of (store w2) (Keg.remote self) key =
            records_of (store w0) (Keg.remote self) key
            ++ filter (fun r => Sql.r_remote r = Keg.remote self
                                /\ Sql.r_digest r = key)
                      [record_for self path r1; record_for self path r2]).
  { intros key. unfold records_of. rewrite Hresp. apply filter_app. }
  split; [|split; [|exact Hcommit]].
  - intros Hne. split.
    + unfold row_set. rewrite Ht2. simpl.
      rewrite tagged_rows_app, tagged_rows_of_other by congruence.
      rewrite app_nil_r, tagged_rows_deleted_other by congruence.
      by rewrite tagged_rows_app, tagged_rows_deleted, tagged_rows_of.
    + rewrite !Hrec, !length_app. split; f_equal.
      * rewrite filter_cons_True by (simpl; auto).
        rewrite filter_cons_False by (simpl; intros [_ E]; congruence).
        reflexivity.
      * rewrite filter_cons_False by (simpl; intros [_ E]; congruence).
        rewrite filter_cons_True by (simpl; auto).
        reflexivity.
  - intros He. rewrite Hrec, length_app. f_equal.
    rewrite !filter_cons_True by (simpl; auto). reflexivity.
Qed.

Lemma get_psv_twice_witness :
  exists w1 w2,
    Keg.get_psv Sample.keg "/cdns" Sample.keg_start
      = (Ok (Sample.cdns_psv, Sample.cdns_response 0), w1) /\
    Keg.get_psv Sample.keg "/cdns" w1
      = (Ok (Sample.cdns_psv, Sample.cdns_response 1), w2) /\
    length (records_of (store w2) "r1" "D1") = 2 /\
    row_set (store w2) "cdns" "r1" "D1" =
      rows_of ["Name"; "Path"] "r1" "D1" 0
              [["eu"; "tpr/hs"]; ["us"; "tpr/hs"]].
Proof.
  pose (a := Keg.get_psv Sample.keg "/cdns" Sample.keg_start).
  assert (H1 : a = (Ok (Sample.cdns_psv, Sample.cdns_response 0), snd a))
    by (apply run_ok; reflexivity).
  unfold a in H1 at 1.
  pose (b := Keg.get_psv Sample.keg "/cdns" (snd a)).
  assert (H2 : b = (Ok (Sample.cdns_psv, Sample.cdns_response 1), snd b))
    by (apply run_ok; reflexivity).
  unfold b in H2 at 1.
  destruct (get_psv_twice _ _ _ _ _ _ _ _ _ H1 H2)
    as (_ & Hrows & _ & Hsame & _).
  exists (snd a), (snd b).
  split; [exact H1|]. split; [exact H2|].
  split; [exact (Hsame eq_refl) | exact Hrows].
Defined.

(** ** The cached CDN list *)

Section CachedCdnsFacts.

Context {CDNs_t : Type}.
Variable psv_loads : list byte -> result PSVFile.
Variable CDNs_new : list string -> CDNs_t.

Lemma set_working_same (w : keg_world) : set_working (store w) w = w.
Proof. destruct w as [[wk cm] sc bk ft]. reflexivity. Qed.

(** [ORDER BY timestamp DESC LIMIT 1] yields a row of greatest
    timestamp, and no row only when there is none. *)
Lemma latest_spec (rs : list Sql.response_row) :
  match Sql.latest rs with
  | None => rs = []
  | Some r =>
      r ∈ rs /\
      forall r', r' ∈ rs -> (Sql.r_timestamp r' <= Sql.r_timestamp r)%Z
  end.
Proof.
  induction rs as [|r rs IH]; [reflexivity|]. simpl.
  destruct (Sql.latest rs) as [r0|].
  - destruct IH as [Hin Hmax].
    destruct (Z.ltb_spec (Sql.r_timestamp r) (Sql.r_timestamp r0)).
    + split; [by right|]. intros r' Hr'.
      apply elem_of_cons in Hr' as [->|Hr']; [lia | auto].
    + split; [by left|]. intros r' Hr'.
      apply elem_of_cons in Hr' as [->|Hr']; [lia|].
      specialize (Hmax _ Hr'). lia.
  - subst rs. split; [by left|]. intros r' Hr'.
    apply elem_of_cons in Hr' as [->|Hr']; [lia|].
    by apply elem_of_nil in Hr'.
Qed.

Lemma bind_keeps_fetches {A B} (m : M keg_world A) (k : A -> M keg_world B) :
  (forall w, fetches (snd (m w)) = fetches w) ->
  (forall a w, fetches (snd (k a w)) = fetches w) ->
  forall w, fetches (snd (bind m k w)) = fetches w.
Proof.
  intros Hm Hk w. unfold bind. specialize (Hm w).
  destruct (m w) as [[a|e] w1]; simpl in *; [|exact Hm].
  by rewrite Hk.
Qed.

Lemma on_db_keeps_fetches {A} (m : M Sql.database A) (w : keg_world) :
  fetches (snd (on_db m w)) = fetches w.
Proof. rewrite on_db_run. reflexivity. Qed.

(** [get_psv] makes exactly one fetch, whether it returns or raises. *)
Lemma get_psv_log (self : Keg.t) (path : string) (w : keg_world) :
  fetches (snd (Keg.get_psv self path w)) =
  fetches w ++ [Keg.remote self +:+ path].
Proof.
  unfold Keg.get_psv. unfold bind at 1, HttpBackend.get_psv.
  destruct (backend w (length (fetches w)) (Keg.remote self +:+ path))
    as [[p r]|]; [|reflexivity].
  set (w' := {| cache_db := cache_db w; state_cache := state_cache w;
                backend := backend w;
                fetches := fetches w ++ [Keg.remote self +:+ path] |}).
  change (fetches w ++ [Keg.remote self +:+ path]) with (fetches w').
  clearbody w'. revert w'.
  repeat (apply bind_keeps_fetches;
          [first [ intros w'; apply on_db_keeps_fetches
                 | intros w'; reflexivity ]
          | intros _ ]).
  intros w'; reflexivity.
Qed.

(** The WHERE clause of the selection keeps the records of that remote
    and that path. *)
Lemma filter_matches (remote path : string) (rs : list Sql.response_row) :
  filter (fun r => Sql.matches remote path r = true) rs =
  filter (fun r => Sql.r_remote r = remote /\ Sql.r_path r = path) rs.
Proof.
  apply list_filter_iff. intros r. unfold Sql.matches.
  rewrite andb_true_iff, !bool_decide_eq_true. reflexivity.
Qed.

End CachedCdnsFacts.

(** C5. [get_cached_cdns(remote, cache_dir)] looks at the response records
    whose remote is [remote] and whose path is ["/cdns"].  When there is one, it takes a record of greatest
    timestamp and returns the CDN list rebuilt from the blob cached under
    that record's digest in [cache_dir] (raising what the cache read or the
    parser raises); the state is left as it is, so no fetch is made.  When
    there is none, it is the live query [get_cdns]: exactly one fetch is
    made, for [/cdns] at the remote of the object, and what is returned is
    the CDN list of the table that fetch delivered. *)
Theorem get_cached_cdns_cache_first {CDNs_t : Type}
    (psv_loads : list byte -> result PSVFile)
    (CDNs_new : list string -> CDNs_t)
    (self : Keg.t) (remote cache_dir : string) (w : keg_world) :
  let known :=
    filter (fun r => Sql.r_remote r = remote /\ Sql.r_path r = "/cdns")
           (Sql.responses (store w)) in
  let out := Keg.get_cached_cdns psv_loads CDNs_new self remote cache_dir w in
  (known <> [] ->
   exists rec,
     rec ∈ known /\
     (forall r, r ∈ known -> (Sql.r_timestamp r <= Sql.r_timestamp rec)%Z) /\
     snd out = w /\
     fst out =
       match state_cache w !! (cache_dir, "/cdns", Sql.r_digest rec) with
       | Some blob =>
           match psv_loads blob with
           | Ok psvfile => Ok (map CDNs_new (psv_rows psvfile))
           | Raise e => Raise e
           end
       | None => Raise FileNotFoundError
       end) /\
  (known = [] ->
   out = Keg.get_cdns CDNs_new self w /\
   fetches (snd out) = fetches w ++ [Keg.remote self +:+ "/cdns"] /\
   forall cdns, fst out = Ok cdns ->
     exists psvfile response,
       backend w (length (fetches w)) (Keg.remote self +:+ "/cdns")
         = Some (psvfile, response) /\
       cdns = map CDNs_new (psv_rows psvfile)).
Proof.
  cbv zeta.
  set (known := filter (fun r => Sql.r_remote r = remote /\
                                 Sql.r_path r = "/cdns")
                       (Sql.responses (store w))).
  assert (Hrun : Keg.get_cached_cdns psv_loads CDNs_new self remote cache_dir w =
            match Sql.r_digest <$> Sql.latest known with
            | None => Keg.get_cdns CDNs_new self w
            | Some d =>
                (let! psvfile :=
                   Keg.get_cached_psv psv_loads self "/cdns" d cache_dir in
                 ret (map CDNs_new (psv_rows psvfile))) w
            end).
  { unfold Keg.get_cached_cdns. unfold bind at 1. rewrite on_db_run.
    unfold Sql.select_latest_digest, gets. cbn [fst snd].
    rewrite set_working_same, filter_matches. fold known.
    destruct (Sql.r_digest <$> Sql.latest known); reflexivity. }
  rewrite Hrun. pose proof (latest_spec known) as Hlatest.
  destruct (Sql.latest known) as [rec|]; simpl.
  - destruct Hlatest as [Hin Hmax]. split.
    + intros _. exists rec. split; [exact Hin|]. split; [exact Hmax|].
      unfold bind, Keg.get_cached_psv, bind, StateCache.read, lift_result, ret.
      destruct (state_cache w !! (cache_dir, "/cdns", Sql.r_digest rec))
        as [blob|]; [|auto].
      destruct (psv_loads blob); auto.
    + intros E. rewrite E in Hin. by apply elem_of_nil in Hin.
  - split; [intros Hne; by destruct Hne|]. intros _.
    split; [reflexivity|].
    unfold Keg.get_cdns, bind.
    pose proof (get_psv_log self "/cdns" w) as Hlog.
    destruct (Keg.get_psv self "/cdns" w) as [[[p r]|e] w'] eqn:Hget;
      simpl in *.
    + split; [exact Hlog|]. intros cdns [= <-].
      destruct (get_psv_effect _ _ _ _ _ _ Hget)
        as (_ & _ & _ & _ & _ & _ & _ & _ & Hback).
      eauto.
    + split; [exact Hlog | discriminate].
Qed.

Lemma get_cached_cdns_cache_first_witness :
  Keg.get_cached_cdns Scenario.loads_line Sample.row_cdn Sample.keg
    "r1" "cache" Scenario.keg_mixed
    = (Ok [["us"]], Scenario.keg_mixed) /\
  (let out := Keg.get_cached_cdns Scenario.loads_line Sample.row_cdn
                Sample.keg "r3" "cache" Scenario.keg_mixed in
   fst out = Ok [["eu"; "tpr/hs"]; ["us"; "tpr/hs"]] /\
   fetches (snd out) = ["r1/cdns"]).
Proof.
  split.
  - pose proof (get_cached_cdns_cache_first Scenario.loads_line
                  Sample.row_cdn Sample.keg "r1" "cache" Scenario.keg_mixed)
      as [Hhit _].
    destruct Hhit as (rec & Hin & Hmax & Hw & Hres).
    { vm_compute. discriminate. }
    assert (Hrec : rec = Scenario.record "r1" "/cdns" 5 "D2").
    { assert (Hlast : Scenario.record "r1" "/cdns" 5 "D2" ∈
                filter (fun r => Sql.r_remote r = "r1" /\
                                 Sql.r_path r = "/cdns")
                       (Sql.responses (store Scenario.keg_mixed))).
      { apply list_elem_of_filter. split; [split; reflexivity|].
        vm_compute. repeat constructor. }
      specialize (Hmax _ Hlast).
      apply list_elem_of_filter in Hin as [[Hremote Hpath] Hin].
      repeat (apply elem_of_cons in Hin as [->|Hin]);
        try reflexivity; try discriminate;
        try (apply elem_of_nil in Hin; destruct Hin);
        simpl in Hmax; lia. }
    subst rec.
    destruct (Keg.get_cached_cdns Scenario.loads_line Sample.row_cdn
                Sample.keg "r1" "cache" Scenario.keg_mixed) as [res w'].
    simpl in Hw, Hres. subst w'. rewrite Hres. reflexivity.
  - pose proof (get_cached_cdns_cache_first Scenario.loads_line
                  Sample.row_cdn Sample.keg "r3" "cache" Scenario.keg_mixed)
      as [_ Hmiss].
    destruct Hmiss as (_ & Hlog & _); [reflexivity|].
    cbv zeta. split; [reflexivity | exact Hlog].
Defined.

(** * Further properties *)

(** ** Content addressing *)

Section AddressingFacts.

Lemma append_assoc (a b c : string) : (a +:+ b) +:+ c = a +:+ (b +:+ c).
Proof.
  induction a as [|x a IH]; [reflexivity|].
  rewrite !append_cons. f_equal. exact IH.
Qed.

Lemma append_empty_r (a : string) : a +:+ "" = a.
Proof.
  induction a as [|x a IH]; [reflexivity|].
  rewrite append_cons. f_equal. exact IH.
Qed.

Lemma append_same_length (a b c d : string) :
  a +:+ c = b +:+ d -> String.length a = String.length b -> a = b /\ c = d.
Proof.
  revert b. induction a as [|x a IH]; intros [|y b] E Hl; simpl in Hl;
    try discriminate.
  - auto.
  - rewrite !append_cons in E. injection E as -> E.
    destruct (IH b E) as [-> ->]; [lia | auto].
Qed.

Lemma length_str_take (n : nat) (s : string) :
  String.length (Py.str_take n s) = n `min` String.length s.
Proof.
  revert s. induction n as [|n IH]; intros [|c s]; simpl; auto.
Qed.

Lemma length_str_drop (n : nat) (s : string) :
  String.length (Py.str_drop n s) = String.length s - n.
Proof.
  revert s. induction n as [|n IH]; intros [|c s]; simpl; auto.
Qed.

Lemma length_slice (s : string) (i j : nat) :
  String.length (Py.slice s i j) = (j - i) `min` (String.length s - i).
Proof. unfold Py.slice. by rewrite length_str_take, length_str_drop. Qed.

Lemma partition_hash_split (key : string) :
  partition_hash key =
  (Py.slice key 0 2 +:+ "/" +:+ Py.slice key 2 4 +:+ "/") +:+ key.
Proof. unfold partition_hash. by rewrite !append_assoc. Qed.

Lemma length_partition_prefix (key : string) :
  String.length (Py.slice key 0 2 +:+ "/" +:+ Py.slice key 2 4 +:+ "/") =
  2 `min` String.length key + 2 `min` (String.length key - 2) + 2.
Proof.
  rewrite !length_append, !length_slice. simpl String.length. lia.
Qed.

Lemma partition_hash_inj (k1 k2 : string) :
  partition_hash k1 = partition_hash k2 -> k1 = k2.
Proof.
  intros E. rewrite !partition_hash_split in E.
  assert (Hlen : String.length k1 = String.length k2).
  { apply (f_equal String.length) in E.
    rewrite !length_append, !length_slice in E. simpl String.length in E.
    lia. }
  apply append_same_length in E as [_ E]; [exact E|].
  rewrite !length_partition_prefix, Hlen. reflexivity.
Qed.

End AddressingFacts.

(** X1. [partition_hash] is injective on all strings: two different keys
    never get the same partition path. *)
Theorem partition_hash_injective (k1 k2 : string) :
  partition_hash k1 = partition_hash k2 -> k1 = k2.
Proof. exact (partition_hash_inj k1 k2). Qed.

Lemma partition_hash_injective_witness :
  partition_hash "abcd" <> partition_hash "abce".
Proof.
  intros E. apply partition_hash_injective in E. discriminate.
Defined.

Section WalkFacts.

Import Walk.

Lemma scan_app (a b cur : string) (w : t) :
  scan (a +:+ b) cur w = scan b (fst (scan a cur w)) (snd (scan a cur w)).
Proof.
  revert cur w. induction a as [|c a IH]; intros cur w; [reflexivity|].
  rewrite append_cons. simpl. destruct (Py.is_slash c); apply IH.
Qed.

Lemma scan_no_slash (n cur : string) (w : t) :
  no_slash n = true -> scan n cur w = (cur +:+ n, w).
Proof.
  revert cur. induction n as [|c n IH]; intros cur H.
  - simpl. by rewrite (append_empty_r cur).
  - simpl in *. apply andb_true_iff in H as [Hc Hn]. apply negb_true_iff in Hc.
    rewrite Hc, (IH _ Hn), append_assoc. reflexivity.
Qed.

Lemma scan_ends_slash (a cur : string) (w : t) :
  Py.endswith_slash a = true -> fst (scan a cur w) = "".
Proof.
  revert cur w. induction a as [|c a IH]; intros cur w H; [discriminate|].
  destruct a as [|c' a].
  - simpl in *. by rewrite H.
  - change (Py.endswith_slash (String c (String c' a)))
      with (Py.endswith_slash (String c' a)) in H.
    change (scan (String c (String c' a)) cur w)
      with (if Py.is_slash c
            then scan (String c' a) "" (step_name cur w)
            else scan (String c' a) (cur +:+ String c "") w).
    destruct (Py.is_slash c); by apply IH.
Qed.

(** A name read after a separator, up to the next one. *)
Lemma scan_name (n rest : string) (w : t) :
  no_slash n = true ->
  scan (n +:+ "/" +:+ rest) "" w = scan rest "" (step_name n w).
Proof.
  intros Hn. rewrite scan_app, (scan_no_slash _ _ _ Hn). reflexivity.
Qed.

Lemma scan_last_name (n : string) (w : t) :
  no_slash n = true -> finish (scan n "" w) = step_name n w.
Proof. intros Hn. by rewrite (scan_no_slash _ _ _ Hn). Qed.

Lemma hex_digit_plain (c : ascii) :
  is_hex_digit c = true ->
  Py.is_slash c = false /\ c <> "."%char.
Proof.
  unfold is_hex_digit. simpl. intros H.
  repeat (apply orb_true_iff in H as [H|H];
          [apply bool_decide_eq_true in H; subst c; split;
           [reflexivity | discriminate]|]).
  discriminate.
Qed.

Lemma all_hex_no_slash (s : string) :
  all_chars is_hex_digit s = true -> no_slash s = true.
Proof.
  induction s as [|c s IH]; [reflexivity|]. simpl. intros H.
  apply andb_true_iff in H as [Hc Hs].
  destruct (hex_digit_plain _ Hc) as [-> _]. simpl. auto.
Qed.

Lemma all_hex_take (n : nat) (s : string) :
  all_chars is_hex_digit s = true ->
  all_chars is_hex_digit (Py.str_take n s) = true.
Proof.
  revert s. induction n as [|n IH]; intros [|c s] H; simpl; auto.
  simpl in H. apply andb_true_iff in H as [-> Hs]. simpl. auto.
Qed.

Lemma all_hex_drop (n : nat) (s : string) :
  all_chars is_hex_digit s = true ->
  all_chars is_hex_digit (Py.str_drop n s) = true.
Proof.
  revert s. induction n as [|n IH]; intros [|c s] H; simpl; auto.
  simpl in H. apply andb_true_iff in H as [_ Hs]. auto.
Qed.

Lemma all_hex_slice (s : string) (i j : nat) :
  all_chars is_hex_digit s = true ->
  all_chars is_hex_digit (Py.slice s i j) = true.
Proof. intros H. by apply all_hex_take, all_hex_drop. Qed.

(** A name that begins with a hex digit is an entry of its own. *)
Lemma step_name_push (c : ascii) (n : string) (w : t) :
  is_hex_digit c = true -> step_name (String c n) w = push (String c n) w.
Proof.
  intros Hc. destruct (hex_digit_plain _ Hc) as [_ Hdot].
  unfold step_name.
  rewrite (bool_decide_eq_false_2 (String c n = "")) by discriminate.
  rewrite (bool_decide_eq_false_2 (String c n = ".")) by congruence.
  rewrite (bool_decide_eq_false_2 (String c n = "..")) by congruence.
  reflexivity.
Qed.

Lemma below_nil (w : t) : below w [] = w.
Proof. destruct w. unfold below. simpl. by rewrite app_nil_r. Qed.

Lemma push_below (n : string) (w : t) (l : list string) :
  push n (below w l) = below w (l ++ [n]).
Proof. unfold push, below. simpl. by rewrite app_assoc. Qed.

Lemma step_name_hex (n : string) (w : t) :
  all_chars is_hex_digit n = true ->
  step_name n w = if bool_decide (n = "") then w else push n w.
Proof.
  destruct n as [|c n]; intros H; [reflexivity|].
  simpl in H. apply andb_true_iff in H as [Hc _].
  by rewrite (step_name_push _ _ _ Hc).
Qed.

Lemma start_app (a b : string) : a <> "" -> start (a +:+ b) = start a.
Proof. destruct a; [done | reflexivity]. Qed.

(** What [posixpath.join] puts after the base directory is read from
    where the base directory is. *)
Lemma resolve_join (base rest : string) :
  Py.startswith_slash rest = false ->
  resolve (base +:+ (if bool_decide (base = "") || Py.endswith_slash base
                     then "" else "/") +:+ rest)
  = finish (scan rest "" (resolve base)).
Proof.
  intros Hrest. destruct (decide (base = "")) as [->|Hne].
  - simpl. unfold resolve, start. change ("" +:+ "" +:+ rest) with rest.
    rewrite Hrest. reflexivity.
  - rewrite (bool_decide_eq_false_2 (base = "") Hne). simpl orb.
    unfold resolve.
    rewrite (start_app _ _ Hne), scan_app.
    destruct (Py.endswith_slash base) eqn:E.
    + change ("" +:+ rest) with rest.
      pose proof (scan_ends_slash base "" (start base) E) as Hcur.
      destruct (scan base "" (start base)) as [cur w1]. simpl in Hcur.
      subst cur. reflexivity.
    + destruct (scan base "" (start base)) as [cur w1]. reflexivity.
Qed.

(** The walk below [w] for a cache entry. *)
Lemma entry_walk (top key suffix : string) (w : t) :
  top = "config" \/ top = "data" ->
  hex_key key = true ->
  suffix = "" \/ suffix = ".index" ->
  finish (scan (top +:+ "/" +:+ partition_hash key +:+ suffix) "" w)
  = below w (top :: partition_dirs key ++ [key +:+ suffix]).
Proof.
  intros Htop Hkey Hsuffix.
  apply andb_true_iff in Hkey as [Hne Hhex].
  apply negb_true_iff, bool_decide_eq_false in Hne.
  destruct key as [|c key]; [done|].
  assert (Hc : is_hex_digit c = true)
    by (simpl in Hhex; by apply andb_true_iff in Hhex as [-> _]).
  assert (Hlast : no_slash (String c key +:+ suffix) = true).
  { pose proof (all_hex_no_slash _ Hhex) as Hk.
    assert (Happ : forall a b, no_slash a = true -> no_slash b = true ->
                               no_slash (a +:+ b) = true).
    { induction a as [|x a IH]; intros b Ha Hb; [exact Hb|].
      rewrite append_cons. simpl in *.
      apply andb_true_iff in Ha as [-> Ha]. simpl. auto. }
    apply Happ; [exact Hk|]. by destruct Hsuffix as [-> | ->]. }
  assert (Htopname : step_name top w = below w [top])
    by (by destruct Htop as [-> | ->]).
  assert (Hfirst : Py.slice (String c key) 0 2 = String c (Py.str_take 1 key))
    by reflexivity.
  unfold partition_hash, partition_dirs. rewrite !append_assoc.
  rewrite scan_name by (by destruct Htop as [-> | ->]).
  rewrite scan_name by (by apply all_hex_no_slash, all_hex_slice).
  rewrite scan_name by (by apply all_hex_no_slash, all_hex_slice).
  rewrite (scan_last_name _ _ Hlast).
  rewrite append_cons, (step_name_push _ _ _ Hc), <- append_cons.
  rewrite (step_name_hex (Py.slice (String c key) 2 4))
    by (by apply all_hex_slice).
  rewrite Htopname, Hfirst, (step_name_push _ _ _ Hc), <- Hfirst.
  rewrite push_below.
  destruct (bool_decide (Py.slice (String c key) 2 4 = ""));
    rewrite !push_below; reflexivity.
Qed.

Lemma append_cancel_r (a b c : string) : a +:+ c = b +:+ c -> a = b.
Proof.
  intros E. apply append_same_length in E as [E _]; [exact E|].
  apply (f_equal String.length) in E. rewrite !length_append in E. lia.
Qed.

Lemma all_chars_app (P : ascii -> bool) (a b : string) :
  all_chars P (a +:+ b) = all_chars P a && all_chars P b.
Proof.
  induction a as [|x a IH]; [reflexivity|].
  rewrite append_cons. simpl. by rewrite IH, andb_assoc.
Qed.

(** The local path of an entry resolved: from where the base directory
    is, it walks [top], the partition directories and the name of the
    entry. *)
Lemma entry_resolved (self : LocalCDN.t) (top key suffix : string) :
  top = "config" \/ top = "data" ->
  hex_key key = true ->
  suffix = "" \/ suffix = ".index" ->
  resolve (LocalCDN.get_full_path self
             ("/" +:+ top +:+ "/" +:+ partition_hash key +:+ suffix))
  = below (resolve (LocalCDN.base_dir self))
          (top :: partition_dirs key ++ [key +:+ suffix]).
Proof.
  intros Htop Hkey Hsuffix.
  assert (Hrel : Py.startswith_slash
                   (top +:+ "/" +:+ partition_hash key +:+ suffix) = false)
    by (by destruct Htop as [-> | ->]).
  unfold LocalCDN.get_full_path.
  replace (Py.lstrip_slash
             ("/" +:+ top +:+ "/" +:+ partition_hash key +:+ suffix))
    with (top +:+ "/" +:+ partition_hash key +:+ suffix)
    by (by destruct Htop as [-> | ->]).
  rewrite (os_path_join_relative _ _ Hrel), (resolve_join _ _ Hrel).
  by apply entry_walk.
Qed.

(** Walks through different names below one place differ in the last
    name. *)
Lemma below_last (w : t) (l1 l2 : list string) (x y : string) :
  below w (l1 ++ [x]) = below w (l2 ++ [y]) -> x = y.
Proof.
  intros E. apply (f_equal names) in E. simpl in E.
  apply app_inv_head in E. apply (f_equal last) in E.
  rewrite !last_snoc in E. by injection E.
Qed.

Lemma below_first (w : t) (a b : string) (l1 l2 : list string) :
  below w (a :: l1) = below w (b :: l2) -> a = b.
Proof.
  intros E. apply (f_equal names) in E. simpl in E.
  apply app_inv_head in E. by injection E.
Qed.

End WalkFacts.

(** X2. For a key made of hex digits (at least one), the local paths
    checked by [has_config], [has_data] and [has_index] lead, from where the
    base directory is, through [config] or [data], the partition directories
    of the key and the key itself (with [.index] for the index), also once
    [.], [..] and repeated separators are resolved.  So under one base
    directory they name different directory entries for different keys; the
    config entry of a key is never the data or index entry of a key, and the
    index entry of a key is never the data entry of a key. *)
Theorem cache_entries_distinct (self : LocalCDN.t) (k1 k2 : string)
    (Hk1 : hex_key k1 = true) (Hk2 : hex_key k2 = true) :
  let entry p := Walk.resolve (LocalCDN.get_full_path self p) in
  let base := Walk.resolve (LocalCDN.base_dir self) in
  entry ("/config/" +:+ partition_hash k1) =
    Walk.below base ("config" :: partition_dirs k1 ++ [k1]) /\
  entry ("/data/" +:+ partition_hash k1) =
    Walk.below base ("data" :: partition_dirs k1 ++ [k1]) /\
  entry ("/data/" +:+ partition_hash k1 +:+ ".index") =
    Walk.below base ("data" :: partition_dirs k1 ++ [k1 +:+ ".index"]) /\
  (entry ("/config/" +:+ partition_hash k1) =
   entry ("/config/" +:+ partition_hash k2) -> k1 = k2) /\
  (entry ("/data/" +:+ partition_hash k1) =
   entry ("/data/" +:+ partition_hash k2) -> k1 = k2) /\
  (entry ("/data/" +:+ partition_hash k1 +:+ ".index") =
   entry ("/data/" +:+ partition_hash k2 +:+ ".index") -> k1 = k2) /\
  entry ("/config/" +:+ partition_hash k1) <>
  entry ("/data/" +:+ partition_hash k2) /\
  entry ("/config/" +:+ partition_hash k1) <>
  entry ("/data/" +:+ partition_hash k2 +:+ ".index") /\
  entry ("/data/" +:+ partition_hash k1 +:+ ".index") <>
  entry ("/data/" +:+ partition_hash k2).
Proof.
  cbv beta zeta.
  assert (Hentry : forall top key suffix,
            top = "config" \/ top = "data" ->
            hex_key key = true ->
            suffix = "" \/ suffix = ".index" ->
            Walk.resolve (LocalCDN.get_full_path self
                            (("/" +:+ top +:+ "/") +:+ partition_hash key
                             +:+ suffix))
            = Walk.below (Walk.resolve (LocalCDN.base_dir self))
                (top :: partition_dirs key ++ [key +:+ suffix])).
  { intros top key suffix Htop Hkey Hsuffix.
    rewrite <- (entry_resolved self top key suffix Htop Hkey Hsuffix).
    by rewrite !append_assoc. }
  assert (Hplain : forall top key,
            top = "config" \/ top = "data" ->
            hex_key key = true ->
            Walk.resolve (LocalCDN.get_full_path self
                            (("/" +:+ top +:+ "/") +:+ partition_hash key))
            = Walk.below (Walk.resolve (LocalCDN.base_dir self))
                (top :: partition_dirs key ++ [key])).
  { intros top key Htop Hkey.
    pose proof (Hentry top key "" Htop Hkey (or_introl eq_refl)) as H.
    by rewrite !append_empty_r in H. }
  pose proof (Hplain "config" k1 (or_introl eq_refl) Hk1) as Hc1.
  pose proof (Hplain "config" k2 (or_introl eq_refl) Hk2) as Hc2.
  pose proof (Hplain "data" k1 (or_intror eq_refl) Hk1) as Hd1.
  pose proof (Hplain "data" k2 (or_intror eq_refl) Hk2) as Hd2.
  pose proof (Hentry "data" k1 ".index" (or_intror eq_refl) Hk1
                (or_intror eq_refl)) as Hi1.
  pose proof (Hentry "data" k2 ".index" (or_intror eq_refl) Hk2
                (or_intror eq_refl)) as Hi2.
  change ("/" +:+ "config" +:+ "/") with "/config/" in Hc1, Hc2.
  change ("/" +:+ "data" +:+ "/") with "/data/" in Hd1, Hd2, Hi1, Hi2.
  rewrite Hc1, Hc2, Hd1, Hd2, Hi1, Hi2.
  split; [reflexivity|]. split; [reflexivity|]. split; [reflexivity|].
  repeat split.
  - intros E. rewrite !app_comm_cons in E. by apply below_last in E.
  - intros E. rewrite !app_comm_cons in E. by apply below_last in E.
  - intros E. rewrite !app_comm_cons in E. apply below_last in E.
    by apply append_cancel_r in E.
  - intros E. apply below_first in E. discriminate.
  - intros E. apply below_first in E. discriminate.
  - intros E. rewrite !app_comm_cons in E. apply below_last in E.
    apply andb_true_iff in Hk2 as [_ Hhex]. rewrite <- E in Hhex.
    rewrite all_chars_app in Hhex.
    apply andb_true_iff in Hhex as [_ Hhex]. discriminate.
Qed.

Lemma cache_entries_distinct_witness :
  Walk.resolve (LocalCDN.get_full_path (LocalCDN.init "d")
                  ("/config/" +:+ partition_hash "abcd"))
  <> Walk.resolve (LocalCDN.get_full_path (LocalCDN.init "d")
                     ("/config/" +:+ partition_hash "abce")) /\
  Walk.resolve (LocalCDN.get_full_path (LocalCDN.init "d")
                  ("/config/" +:+ partition_hash "abcd"))
  = Walk.below (Walk.resolve "d") ["config"; "ab"; "cd"; "abcd"] /\
  Walk.resolve (LocalCDN.get_full_path (LocalCDN.init "d")
                  ("/config/" +:+ partition_hash ".//../data/ab/cd/abcd"))
  = Walk.resolve (LocalCDN.get_full_path (LocalCDN.init "d")
                    ("/data/" +:+ partition_hash "abcd")).
Proof.
  destruct (cache_entries_distinct (LocalCDN.init "d") "abcd" "abce"
              eq_refl eq_refl) as (Hwalk & _ & _ & Hconfig & _).
  split; [|split; [exact Hwalk | reflexivity]].
  intros E. apply Hconfig in E. discriminate.
Defined.

(** ** More on [HTTPCacheWrapper] *)

Section CacheWriterMore.

Import HTTPCacheWrapper.

(** The constructor, step by step. *)
Lemma init_unfold (obj : stream) (path : string) (w : world) :
  init obj path w =
  let d := Py.os_path_dirname path in
  let (r0, f0) :=
    if Os.present (fs w) d then (Ok tt, fs w) else Os.makedirs d (fs w) in
  match r0 with
  | Raise e => (Raise e, set_fs f0 w)
  | Ok _ =>
      let (r1, f1) := Os.open_wb (path +:+ ".keg_temp") f0 in
      match r1 with
      | Ok h => (Ok {| _obj := obj; _real_path := path;
                       _temp_path := path +:+ ".keg_temp";
                       _cache_file := h |}, set_fs f1 w)
      | Raise e => (Raise e, set_fs f1 w)
      end
  end.
Proof.
  unfold init, bind. rewrite on_fs_run.
  unfold Os.path_exists, gets. cbn [fst snd].
  destruct (Os.present (fs w) (Py.os_path_dirname path)); cbn [negb].
  - unfold ret at 1. rewrite on_fs_run. cbn [fs set_fs].
    destruct (Os.open_wb (path +:+ ".keg_temp") (fs w)) as [[h|e] f1];
      reflexivity.
  - rewrite on_fs_run. cbn [fs set_fs].
    destruct (Os.makedirs (Py.os_path_dirname path) (fs w)) as [[u|e] f0];
      cbn [fst snd]; [|reflexivity].
    rewrite on_fs_run. cbn [fs set_fs].
    destruct (Os.open_wb (path +:+ ".keg_temp") f0) as [[h|e] f1];
      reflexivity.
Qed.

Lemma no_slash_dirname (path : string) :
  no_slash path = true -> Py.os_path_dirname path = "".
Proof.
  intros H. unfold Py.os_path_dirname.
  assert (E : Py.through_last_slash path = "").
  { induction path as [|c p IH]; [reflexivity|]. simpl in *.
    apply andb_true_iff in H as [Hc Hp]. rewrite (IH Hp).
    apply negb_true_iff in Hc. by rewrite Hc. }
  rewrite E. reflexivity.
Qed.

Lemma through_last_slash_suffix (p s : string) :
  no_slash s = true ->
  Py.through_last_slash (p +:+ s) = Py.through_last_slash p.
Proof.
  intros Hs. induction p as [|c p IH].
  - change ("" +:+ s) with s.
    induction s as [|x s IHs]; [reflexivity|]. simpl in *.
    apply andb_true_iff in Hs as [Hx Hs]. rewrite (IHs Hs).
    apply negb_true_iff in Hx. by rewrite Hx.
  - rewrite append_cons. simpl. by rewrite IH.
Qed.

(** The temp file lives in the directory of the destination. *)
Lemma dirname_temp (path : string) :
  Py.os_path_dirname (path +:+ ".keg_temp") = Py.os_path_dirname path.
Proof.
  unfold Py.os_path_dirname.
  by rewrite through_last_slash_suffix by reflexivity.
Qed.

End CacheWriterMore.

(** X3. A destination without a directory part cannot be written: since
    [os.path.exists("")] is false, the constructor calls [os.makedirs("")],
    which raises [FileNotFoundError]; no temp file is opened and nothing
    changes. *)
Theorem init_needs_a_directory (obj : stream) (path : string) (w : world)
    (Hname : no_slash path = true)
    (Hempty : Os.present (fs w) "" = false) :
  HTTPCacheWrapper.init obj path w = (Raise FileNotFoundError, w).
Proof.
  rewrite init_unfold, (no_slash_dirname _ Hname). cbv zeta.
  rewrite Hempty. simpl. by rewrite set_fs_same.
Qed.

Lemma init_needs_a_directory_witness :
  HTTPCacheWrapper.init Sample.body "blob.bin" Sample.empty_cache
    = (Raise FileNotFoundError, Sample.empty_cache).
Proof.
  apply init_needs_a_directory; reflexivity.
Defined.

(** X4. A constructor that returns has made sure the parent of the
    destination exists, has created or emptied the temp file (a stale temp
    file of an earlier attempt is truncated), has touched no other file,
    removed no directory and issued no request. *)
Theorem init_prepares_temp (obj : stream) (path : string) (w w1 : world)
    (self : HTTPCacheWrapper.t)
    (Hinit : HTTPCacheWrapper.init obj path w = (Ok self, w1)) :
  (Py.os_path_dirname path = "" \/
   Os.is_dir (fs w1) (Py.os_path_dirname path) = true) /\
  files (fs w1) !! (path +:+ ".keg_temp") = Some [] /\
  (forall p, p <> path +:+ ".keg_temp" ->
             files (fs w1) !! p = files (fs w) !! p) /\
  dirs (fs w) ⊆ dirs (fs w1) /\
  requests w1 = requests w.
Proof.
  destruct (init_ok _ _ _ _ _ Hinit)
    as (_ & _ & Htemp & (_ & _ & _ & Hfile) & Hother & Hreq & _).
  simpl in Hfile. rewrite Htemp in Hfile.
  rewrite init_unfold in Hinit. cbv zeta in Hinit.
  set (d := Py.os_path_dirname path) in *.
  destruct (if Os.present (fs w) d then (Ok (), fs w)
            else Os.makedirs d (fs w)) as [[u|e] f0] eqn:Hmk; [|discriminate].
  destruct (Os.open_wb (path +:+ ".keg_temp") f0) as [[h|e] f1] eqn:Hopen;
    [|discriminate].
  injection Hinit as <- <-.
  assert (Hparent : d = "" \/ Os.is_dir f0 d = true).
  { unfold Os.open_wb in Hopen. rewrite dirname_temp in Hopen.
    fold d in Hopen.
    destruct (Os.is_dir f0 (path +:+ ".keg_temp")); [discriminate|].
    destruct (bool_decide (d = "")) eqn:Hd.
    - left. by apply bool_decide_eq_true in Hd.
    - simpl in Hopen. destruct (Os.is_dir f0 d); [by right|].
      destruct (existsb _ _); discriminate. }
  apply open_wb_ok in Hopen as (_ & _ & Hdirs & _).
  assert (Hsub : dirs (fs w) ⊆ dirs f0).
  { destruct (Os.present (fs w) d).
    - destruct u. injection Hmk as Hf0. by rewrite <- Hf0.
    - unfold Os.makedirs in Hmk.
      repeat match type of Hmk with
             | (if ?c then _ else _) = _ => destruct c; [discriminate|]
             end.
      destruct u. injection Hmk as Hf0. rewrite <- Hf0. simpl.
      apply union_subseteq_r. }
  simpl. unfold Os.is_dir in *. rewrite Hdirs.
  repeat split; auto.
Qed.

Lemma init_prepares_temp_witness :
  exists self w1,
    HTTPCacheWrapper.init Sample.body "d/ab/x" Sample.empty_cache
      = (Ok self, w1) /\
    Os.is_dir (fs w1) "d/ab" = true /\
    files (fs w1) !! "d/ab/x.keg_temp" = Some [].
Proof.
  pose (r := HTTPCacheWrapper.init Sample.body "d/ab/x" Sample.empty_cache).
  pose (self :=
    {| HTTPCacheWrapper._obj := Sample.body;
       HTTPCacheWrapper._real_path := "d/ab/x";
       HTTPCacheWrapper._temp_path := "d/ab/x.keg_temp";
       HTTPCacheWrapper._cache_file :=
         {| Os.wf_path := "d/ab/x.keg_temp"; Os.wf_closed := false |} |}).
  assert (Hinit : r = (Ok self, snd r)) by (apply run_ok; reflexivity).
  unfold r in Hinit at 1.
  destruct (init_prepares_temp _ _ _ _ _ Hinit) as ([Hd|Hd] & Hf & _).
  - discriminate.
  - exists self, (snd r). auto.
Defined.

(** X5. A writer is released once.  After a [close] that returned, a second
    [close] (or [__exit__]) raises, whatever the upstream then answers, and
    changes no file and no directory: the published destination stays. *)
Theorem close_twice_raises (st st1 : HTTPCacheWrapper.state)
    (written : list byte)
    (Hw : writing st written)
    (Hclose : HTTPCacheWrapper.close st = (Ok tt, st1)) :
  exists e st2,
    HTTPCacheWrapper.close st1 = (Raise e, st2) /\
    HTTPCacheWrapper.exit_ st1 = (Raise e, st2) /\
    fs (snd st2) = fs (snd st1) /\
    files (fs (snd st2)) !! HTTPCacheWrapper._real_path (fst st)
      = Some (written ++ pending (HTTPCacheWrapper._obj (fst st))).
Proof.
  destruct (close_ok _ _ _ Hw Hclose) as (Hdest & Hgone & _ & Hcf & _).
  assert (Hpaths : HTTPCacheWrapper._temp_path (fst st1)
                   = HTTPCacheWrapper._temp_path (fst st)).
  { rewrite close_unfold in Hclose.
    destruct (HTTPCacheWrapper.read (-1) st) as [[bytes|e] st0] eqn:Hr;
      [|discriminate].
    destruct (read_ok_step _ _ _ _ _ Hw Hr) as ((_ & Ht & _) & _).
    cbv zeta in Hclose.
    destruct (Os.rename _ _ _) as [[u|e] f']; [|discriminate].
    injection Hclose as <-. simpl. exact Ht. }
  assert (Hsecond : exists e st2,
            HTTPCacheWrapper.close st1 = (Raise e, st2) /\
            fs (snd st2) = fs (snd st1)).
  { rewrite close_unfold. destruct st1 as [self1 w1]. simpl in *.
    rewrite read_unfold.
    destruct (Stream.read (amount (-1)) (HTTPCacheWrapper._obj self1))
      as [[[|b bs]|e] o'].
    - cbv zeta. simpl. unfold Os.rename. rewrite Hpaths, Hgone. eauto.
    - unfold Os.write. rewrite Hcf. simpl. rewrite set_fs_same. eauto.
    - eauto. }
  destruct Hsecond as (e & st2 & Hc2 & Hfs).
  exists e, st2. split; [exact Hc2|]. split.
  - unfold HTTPCacheWrapper.exit_, bind. by rewrite Hc2.
  - split; [exact Hfs|]. by rewrite Hfs.
Qed.

Lemma close_twice_raises_witness :
  exists self w1 st1 e st2,
    HTTPCacheWrapper.init Sample.body "d/x" Sample.empty_cache = (Ok self, w1) /\
    HTTPCacheWrapper.close (self, w1) = (Ok tt, st1) /\
    HTTPCacheWrapper.close st1 = (Raise e, st2) /\
    files (fs (snd st2)) !! "d/x" = Some (Sample.bytes "hello world").
Proof.
  pose (r := HTTPCacheWrapper.init Sample.body "d/x" Sample.empty_cache).
  pose (self :=
    {| HTTPCacheWrapper._obj := Sample.body;
       HTTPCacheWrapper._real_path := "d/x";
       HTTPCacheWrapper._temp_path := "d/x.keg_temp";
       HTTPCacheWrapper._cache_file :=
         {| Os.wf_path := "d/x.keg_temp"; Os.wf_closed := false |} |}).
  assert (Hinit : r = (Ok self, snd r)) by (apply run_ok; reflexivity).
  unfold r in Hinit at 1.
  pose (c := HTTPCacheWrapper.close (self, snd r)).
  assert (Hclose : c = (Ok tt, snd c)) by (apply run_ok; reflexivity).
  unfold c in Hclose at 1.
  assert (Hw : writing (self, snd r) []).
  { repeat split; try reflexivity. discriminate. }
  destruct (close_twice_raises _ _ _ Hw Hclose) as (e & st2 & Hc2 & _ & _ & Hd).
  exists self, (snd r), (snd c), e, st2. auto.
Defined.

Lemma stream_read_dropped (amt : option Z) (s s' : stream) :
  eof_after_break s = true ->
  Stream.read amt s = (Raise ConnectionError, s') ->
  delivers s' = true /\ pending s' = [] /\ pending s <> [].
Proof.
  intros Heof. destruct (read_cases amt s) as [k ->].
  unfold Stream.read_upto. destruct (closed s); [discriminate|].
  destruct (breaks_after s) as [b|]; [|discriminate].
  destruct (b <? length (take k (pending s))) eqn:E; [|discriminate].
  rewrite Heof. intros [= <-]. repeat split.
  apply Nat.ltb_lt in E. intros Hnil. rewrite Hnil, take_nil in E.
  simpl in E. lia.
Qed.

(** X21. A release after a failed read can publish a truncated file.  When
    a read of a writer at work raises [ConnectionError] on an upstream that
    answers later reads with the end of the stream, and the destination is
    not a directory, [__exit__] (and [close]) returns: the destination then
    holds exactly the bytes delivered before the failure, although the
    upstream had more to deliver, and the temp file is gone. *)
Theorem exit_after_dropped_read_publishes (n : Z)
    (st st1 : HTTPCacheWrapper.state) (written : list byte)
    (Hw : writing st written)
    (Heof : eof_after_break (HTTPCacheWrapper._obj (fst st)) = true)
    (Hdir : Os.is_dir (fs (snd st)) (HTTPCacheWrapper._real_path (fst st))
            = false)
    (Hread : HTTPCacheWrapper.read n st = (Raise ConnectionError, st1)) :
  exists st2,
    HTTPCacheWrapper.close st1 = (Ok tt, st2) /\
    HTTPCacheWrapper.exit_ st1 = (Ok false, st2) /\
    files (fs (snd st2)) !! HTTPCacheWrapper._real_path (fst st)
      = Some written /\
    files (fs (snd st2)) !! HTTPCacheWrapper._temp_path (fst st) = None /\
    pending (HTTPCacheWrapper._obj (fst st)) <> [].
Proof.
  pose proof (read_step n st written Hw) as H. cbv zeta in H.
  rewrite Hread in H. simpl in H. destruct H as (Ht & Ho & H).
  destruct (Stream.read (amount n) (HTTPCacheWrapper._obj (fst st)))
    as [[bytes|e] o'] eqn:Hup; simpl in *;
    destruct H as (He & Hw1 & Hs); [discriminate|].
  injection He as <-.
  destruct (stream_read_dropped _ _ _ Heof Hup) as (Hd & Hnil & Hmore).
  destruct Ht as (Hreal & Htemp & _).
  assert (Hdir1 : Os.is_dir (fs (snd st1))
                    (HTTPCacheWrapper._real_path (fst st1)) = false)
    by (by rewrite Hs, Hreal).
  rewrite <- Ho in Hd, Hnil.
  destruct (close_delivers st1 written Hw1 Hd Hdir1) as (st2 & Hclose).
  destruct (close_ok _ _ _ Hw1 Hclose) as (Hdest & Hgone & _).
  rewrite Hnil, app_nil_r, Hreal in Hdest. rewrite Htemp in Hgone.
  exists st2. split; [exact Hclose|]. split.
  - unfold HTTPCacheWrapper.exit_, bind, ret. by rewrite Hclose.
  - auto.
Qed.

Lemma exit_after_dropped_read_publishes_witness :
  exists self w1 st st1 st2,
    HTTPCacheWrapper.init Scenario.dropped "d/x" Sample.empty_cache
      = (Ok self, w1) /\
    HTTPCacheWrapper.read 1 (self, w1) = (Ok (Sample.bytes "n"), st) /\
    HTTPCacheWrapper.read 5 st = (Raise ConnectionError, st1) /\
    HTTPCacheWrapper.exit_ st1 = (Ok false, st2) /\
    files (fs (snd st2)) !! "d/x" = Some (Sample.bytes "n") /\
    files (fs (snd st2)) !! "d/x.keg_temp" = None.
Proof.
  pose (r := HTTPCacheWrapper.init Scenario.dropped "d/x" Sample.empty_cache).
  pose (self :=
    {| HTTPCacheWrapper._obj := Scenario.dropped;
       HTTPCacheWrapper._real_path := "d/x";
       HTTPCacheWrapper._temp_path := "d/x.keg_temp";
       HTTPCacheWrapper._cache_file :=
         {| Os.wf_path := "d/x.keg_temp"; Os.wf_closed := false |} |}).
  assert (Hinit : r = (Ok self, snd r)) by (apply run_ok; reflexivity).
  unfold r in Hinit at 1.
  pose (a := HTTPCacheWrapper.read 1 (self, snd r)).
  assert (Hfirst : a = (Ok (Sample.bytes "n"), snd a))
    by (apply run_ok; reflexivity).
  unfold a in Hfirst at 1.
  pose (b := HTTPCacheWrapper.read 5 (snd a)).
  assert (Hread : b = (Raise ConnectionError, snd b))
    by (apply run_raise; reflexivity).
  unfold b in Hread at 1.
  assert (Hw : writing (snd a) (Sample.bytes "n")).
  { repeat split; try reflexivity. discriminate. }
  destruct (exit_after_dropped_read_publishes 5 _ _ _ Hw eq_refl eq_refl Hread)
    as (st2 & _ & Hexit & Hdest & Hgone & _).
  exists self, (snd r), (snd a), (snd b), st2.
  split; [exact Hinit|]. split; [exact Hfirst|]. split; [exact Hread|].
  split; [exact Hexit|]. split; [exact Hdest | exact Hgone].
Defined.

(** ** Filling the cache *)

Section FillFacts.







End FillFacts.

Section FillRuns.

Lemma makedirs_ok (p : string) (f : filesystem) :
  p <> "" -> Os.present f p = false ->
  existsb (Os.is_file f) (Os.ancestors (String.length p) p) = false ->
  Os.makedirs p f =
  (Ok tt, Os.set_dirs ({[ p ]} ∪ list_to_set (Os.ancestors (String.length p) p)
                       ∪ dirs f) f).
Proof.
  intros Hp Hpres Hanc. unfold Os.makedirs.
  rewrite bool_decide_eq_false_2 by exact Hp. by rewrite Hpres, Hanc.
Qed.

(** Whatever [makedirs] does, files stay and directories only grow by the
    path and its ancestors. *)
Lemma makedirs_any (p : string) (f : filesystem) :
  let out := Os.makedirs p f in
  files (snd out) = files f /\
  forall q, Os.is_dir (snd out) q = true ->
    Os.is_dir f q = true \/
    q ∈ ({[ p ]} ∪ list_to_set (Os.ancestors (String.length p) p) : gset string).
Proof.
  cbv zeta. unfold Os.makedirs.
  repeat match goal with
         | |- context [if ?c then _ else _] => destruct c; simpl; [by auto|]
         end.
  split; [reflexivity|]. intros q Hq. unfold Os.is_dir in *. simpl in Hq.
  apply bool_decide_eq_true in Hq. apply elem_of_union in Hq as [Hq|Hq].
  - by right.
  - left. by apply bool_decide_eq_true.
Qed.




Lemma remote_get_item_ok (self : RemoteCDN.t) (path : string) (w : world)
    (resp : http_response) (n : string) :
  origin w (length (requests w)) (RemoteCDN.url self path) = Some resp ->
  content_length resp = Some n ->
  exists wa, RemoteCDN.get_item self path w = (Ok (raw resp), wa) /\
             fs wa = fs w.
Proof.
  intros Ho Hn.
  unfold RemoteCDN.get_item, bind, print, modify, requests_get,
    RemoteCDN.header_content_length, ret. simpl. rewrite Ho. simpl.
  rewrite Hn. simpl. eauto.
Qed.





End FillRuns.







(** ** Constructing the caching CDN *)

Section CachingInit.

(** [CacheableCDNWrapper.__init__], step by step. *)
Lemma caching_init_unfold (cdn : CDNs.t) (base : string) (w : world) :
  CacheableCDNWrapper.init cdn base w =
  let (r0, f0) :=
    if Os.present (fs w) base then (Ok tt, fs w)
    else Os.makedirs base (fs w) in
  match r0 with
  | Raise e => (Raise e, set_fs f0 w)
  | Ok _ =>
      match RemoteCDN.init cdn with
      | Ok remote =>
          (Ok {| CacheableCDNWrapper.local_cdn := LocalCDN.init base;
                 CacheableCDNWrapper.remote_cdn := remote |}, set_fs f0 w)
      | Raise e => (Raise e, set_fs f0 w)
      end
  end.
Proof.
  unfold CacheableCDNWrapper.init, bind. rewrite on_fs_run.
  unfold Os.path_exists, gets. cbn [fst snd].
  destruct (Os.present (fs w) base); cbn [negb].
  - unfold ret at 1, lift_result. destruct (RemoteCDN.init cdn); reflexivity.
  - rewrite on_fs_run. cbn [fs set_fs].
    destruct (Os.makedirs base (fs w)) as [[u|e] f0]; cbn [fst snd];
      [|reflexivity].
    unfold lift_result. destruct (RemoteCDN.init cdn); reflexivity.
Qed.

End CachingInit.

(** X9. A caching CDN cannot be constructed from a descriptor without
    servers, and the failure comes late: the cache directory is looked for
    and created first, so when it was missing (and can be made) the call
    raises [AssertionError] and leaves the new directory behind. *)
Theorem caching_cdn_needs_a_server (cdn : CDNs.t) (base : string) (w : world)
    (Hnone : CDNs.all_servers cdn = []) :
  (exists e w', CacheableCDNWrapper.init cdn base w = (Raise e, w')) /\
  (base <> "" -> Os.present (fs w) base = false ->
   existsb (Os.is_file (fs w)) (Os.ancestors (String.length base) base) = false ->
   exists w',
     CacheableCDNWrapper.init cdn base w = (Raise AssertionError, w') /\
     Os.is_dir (fs w') base = true /\ files (fs w') = files (fs w)) /\
  (Os.present (fs w) base = true ->
   CacheableCDNWrapper.init cdn base w = (Raise AssertionError, w)).
Proof.
  assert (Hremote : RemoteCDN.init cdn = Raise AssertionError)
    by (unfold RemoteCDN.init; by rewrite Hnone).
  rewrite caching_init_unfold, Hremote. split; [|split].
  - destruct (if Os.present (fs w) base then (Ok (), fs w)
              else Os.makedirs base (fs w)) as [[u|e] f0]; eauto.
  - intros Hb Hp Hanc. rewrite Hp, (makedirs_ok _ _ Hb Hp Hanc).
    eexists. split; [reflexivity|]. split; [|reflexivity].
    unfold Os.is_dir. simpl. apply bool_decide_eq_true.
    by apply elem_of_union_l, elem_of_union_l, elem_of_singleton.
  - intros Hp. rewrite Hp. by rewrite set_fs_same.
Qed.

Lemma caching_cdn_needs_a_server_witness :
  exists w',
    CacheableCDNWrapper.init
      {| CDNs.all_servers := []; CDNs.path := "tpr/hs" |} "d/cache"
      Sample.empty_cache = (Raise AssertionError, w') /\
    Os.is_dir (fs w') "d/cache" = true.
Proof.
  destruct (caching_cdn_needs_a_server
              {| CDNs.all_servers := []; CDNs.path := "tpr/hs" |} "d/cache"
              Sample.empty_cache eq_refl) as (_ & Hmade & _).
  destruct (Hmade ltac:(discriminate) eq_refl eq_refl) as (w' & Hrun & Hdir & _).
  eauto.
Defined.

(** X10. A constructed caching CDN serves from the given base path and
    asks the first server of the descriptor under the descriptor's path; no
    file was touched and no request was issued.  Something exists at the base
    path afterwards: when nothing was there, it is the directory just made;
    when something was there, directory or not, the state is unchanged (the
    constructor tests [os.path.exists], not that the base is a directory). *)
Theorem caching_cdn_constructed (cdn : CDNs.t) (base : string) (w w' : world)
    (self : CacheableCDNWrapper.t)
    (Hinit : CacheableCDNWrapper.init cdn base w = (Ok self, w')) :
  LocalCDN.base_dir (CacheableCDNWrapper.local_cdn self) = base /\
  (exists s rest,
     CDNs.all_servers cdn = s :: rest /\
     RemoteCDN.server (CacheableCDNWrapper.remote_cdn self) = s) /\
  RemoteCDN.path (CacheableCDNWrapper.remote_cdn self) = CDNs.path cdn /\
  Os.present (fs w') base = true /\
  files (fs w') = files (fs w) /\
  requests w' = requests w /\
  (Os.present (fs w) base = false -> Os.is_dir (fs w') base = true) /\
  (Os.present (fs w) base = true -> w' = w).
Proof.
  rewrite caching_init_unfold in Hinit.
  destruct (Os.present (fs w) base) eqn:Hp.
  - unfold RemoteCDN.init in Hinit.
    destruct (CDNs.all_servers cdn) as [|s rest]; [discriminate|].
    injection Hinit as <- <-. simpl. rewrite Hp, set_fs_same.
    repeat split; eauto; discriminate.
  - pose proof (makedirs_any base (fs w)) as Hany. cbv zeta in Hany.
    destruct (Os.makedirs base (fs w)) as [[u|e] f0] eqn:Hmk; [|discriminate].
    unfold RemoteCDN.init in Hinit.
    destruct (CDNs.all_servers cdn) as [|s rest]; [discriminate|].
    injection Hinit as <- <-. simpl. destruct Hany as [Hfiles _].
    simpl in Hfiles.
    assert (Hdir : Os.is_dir f0 base = true).
    { unfold Os.makedirs in Hmk.
      repeat match type of Hmk with
             | (if ?c then _ else _) = _ => destruct c; [discriminate|]
             end.
      destruct u. injection Hmk as Hf0. rewrite <- Hf0.
      unfold Os.is_dir. simpl. apply bool_decide_eq_true.
      by apply elem_of_union_l, elem_of_union_l, elem_of_singleton. }
    unfold Os.present. rewrite Hdir, orb_true_r.
    repeat split; eauto; discriminate.
Qed.

Lemma caching_cdn_constructed_witness :
  (exists self w',
     CacheableCDNWrapper.init
       {| CDNs.all_servers := ["http://s"; "http://t"]; CDNs.path := "p" |}
       "d/cache" Sample.empty_cache = (Ok self, w') /\
     RemoteCDN.server (CacheableCDNWrapper.remote_cdn self) = "http://s" /\
     Os.is_dir (fs w') "d/cache" = true) /\
  (exists self,
     CacheableCDNWrapper.init
       {| CDNs.all_servers := ["http://s"; "http://t"]; CDNs.path := "p" |}
       "d/x" Sample.cached = (Ok self, Sample.cached) /\
     Os.is_file (fs Sample.cached) "d/x" = true /\
     Os.is_dir (fs Sample.cached) "d/x" = false).
Proof.
  split; [|
    pose (cdn := {| CDNs.all_servers := ["http://s"; "http://t"];
                    CDNs.path := "p" |});
    pose (r := CacheableCDNWrapper.init cdn "d/x" Sample.cached);
    pose (self :=
      {| CacheableCDNWrapper.local_cdn := LocalCDN.init "d/x";
         CacheableCDNWrapper.remote_cdn :=
           {| RemoteCDN.server := "http://s"; RemoteCDN.path := "p" |} |});
    assert (Hinit : r = (Ok self, snd r)) by (apply run_ok; reflexivity);
    unfold r in Hinit at 1;
    destruct (caching_cdn_constructed _ _ _ _ _ Hinit)
      as (_ & _ & _ & _ & _ & _ & _ & Hsame);
    exists self; split; [|split; reflexivity];
    rewrite <- (Hsame eq_refl) at 2; exact Hinit ].
  pose (cdn := {| CDNs.all_servers := ["http://s"; "http://t"];
                  CDNs.path := "p" |}).
  pose (r := CacheableCDNWrapper.init cdn "d/cache" Sample.empty_cache).
  pose (self :=
    {| CacheableCDNWrapper.local_cdn := LocalCDN.init "d/cache";
       CacheableCDNWrapper.remote_cdn :=
         {| RemoteCDN.server := "http://s"; RemoteCDN.path := "p" |} |}).
  assert (Hinit : r = (Ok self, snd r)) by (apply run_ok; reflexivity).
  unfold r in Hinit at 1.
  destruct (caching_cdn_constructed _ _ _ _ _ Hinit)
    as (_ & _ & _ & _ & _ & _ & Hmade & _).
  exists self, (snd r). split; [exact Hinit|]. split; [reflexivity|].
  apply Hmade. reflexivity.
Defined.

(** ** The derived operations of [BaseCDN] *)

Section FetchFacts.

Lemma read_within_of_bytes (content : list byte) :
  BaseCDN.read_within (Stream.of_bytes content) = Ok content.
Proof.
  unfold BaseCDN.read_within, Stream.read, Stream.read_upto. simpl.
  by rewrite firstn_all.
Qed.

Lemma read_within_delivers (s : stream) :
  delivers s = true -> BaseCDN.read_within s = Ok (pending s).
Proof.
  intros Hd. unfold BaseCDN.read_within.
  destruct (stream_read_delivers None s Hd) as (r & s' & Hr & _).
  rewrite Hr. apply stream_read_all_ok in Hr as [-> _]. reflexivity.
Qed.

(** What [CacheableCDNWrapper.get_item] returns is the local file, and a
    repeated call returns it again without changing anything. *)
Lemma get_item_returns_local (self : CacheableCDNWrapper.t) (path : string)
    (w w1 : world) (s : stream) :
  CacheableCDNWrapper.get_item self path w = (Ok s, w1) ->
  exists content,
    files (fs w1) !! LocalCDN.get_full_path
                       (CacheableCDNWrapper.local_cdn self) path
      = Some content /\
    s = Stream.of_bytes content /\
    CacheableCDNWrapper.get_item self path w1 = (Ok s, w1).
Proof.
  intros Hget.
  assert (Hlocal : exists wc,
            LocalCDN.get_item (CacheableCDNWrapper.local_cdn self) path wc
              = (Ok s, w1)).
  { unfold CacheableCDNWrapper.get_item, bind at 1 in Hget.
    rewrite exists_run in Hget.
    destruct (Os.present _ _); simpl negb in Hget; cbv iota in Hget.
    - unfold bind, ret in Hget. eauto.
    - unfold bind at 1 in Hget.
      match type of Hget with
      | (let (r, s') := ?m in _) = _ => destruct m as [[u|e] wc]
      end; [eauto | discriminate]. }
  destruct Hlocal as (wc & Hlocal).
  apply local_get_item_run in Hlocal as (-> & c & Hc & ->).
  exists c. split; [exact Hc|]. split; [reflexivity|].
  rewrite get_item_hit.
  - by apply local_get_item_file.
  - unfold Os.present, Os.is_file. rewrite Hc.
    rewrite bool_decide_eq_true_2 by eauto. reflexivity.
Qed.

Lemma fetch_through_cache (self : CacheableCDNWrapper.t) (path : string)
    (w w1 : world) (data : list byte) :
  (let! resp := CacheableCDNWrapper.get_item self path in
   lift_result (BaseCDN.read_within resp)) w = (Ok data, w1) ->
  files (fs w1) !! LocalCDN.get_full_path
                     (CacheableCDNWrapper.local_cdn self) path = Some data /\
  LocalCDN.exists_ (CacheableCDNWrapper.local_cdn self) path w1
    = (Ok true, w1) /\
  (let! resp := CacheableCDNWrapper.get_item self path in
   lift_result (BaseCDN.read_within resp)) w1 = (Ok data, w1).
Proof.
  unfold bind, lift_result. intros Hrun.
  destruct (CacheableCDNWrapper.get_item self path w) as [[s|e] wa] eqn:Hget;
    [|discriminate].
  destruct (get_item_returns_local _ _ _ _ _ Hget) as (c & Hc & -> & Hagain).
  rewrite read_within_of_bytes in Hrun. injection Hrun as <- <-.
  split; [exact Hc|]. split.
  - rewrite exists_run. unfold Os.present, Os.is_file. rewrite Hc.
    rewrite bool_decide_eq_true_2 by eauto. reflexivity.
  - rewrite Hagain. by rewrite read_within_of_bytes.
Qed.

End FetchFacts.

(** X11. Through the caching CDN, a [fetch_config] that returns has cached
    what it returned: the local config file of the key holds exactly the
    returned bytes, [has_config] is true afterwards, and fetching again
    returns the same bytes without changing anything (so without any
    request).  The same holds for [fetch_index] with [has_index]. *)
Theorem fetch_config_caches (self : CacheableCDNWrapper.t) (key : string)
    (w w1 : world) (data : list byte) :
  (BaseCDN.fetch_config (CacheableCDNWrapper.get_item self) key w
     = (Ok data, w1) ->
   files (fs w1) !! LocalCDN.get_full_path
                      (CacheableCDNWrapper.local_cdn self)
                      ("/config/" +:+ partition_hash key) = Some data /\
   CacheableCDNWrapper.has_config self key w1 = (Ok true, w1) /\
   BaseCDN.fetch_config (CacheableCDNWrapper.get_item self) key w1
     = (Ok data, w1)) /\
  (BaseCDN.fetch_index (CacheableCDNWrapper.get_item self) key w
     = (Ok data, w1) ->
   files (fs w1) !! LocalCDN.get_full_path
                      (CacheableCDNWrapper.local_cdn self)
                      ("/data/" +:+ partition_hash key +:+ ".index")
     = Some data /\
   CacheableCDNWrapper.has_index self key w1 = (Ok true, w1) /\
   BaseCDN.fetch_index (CacheableCDNWrapper.get_item self) key w1
     = (Ok data, w1)).
Proof.
  split; intros Hrun; by apply fetch_through_cache in Hrun.
Qed.

Lemma fetch_config_caches_witness :
  exists w1,
    BaseCDN.fetch_config (CacheableCDNWrapper.get_item Sample.cdn) "abcd"
      Sample.fresh = (Ok (Sample.bytes "hello world"), w1) /\
    CacheableCDNWrapper.has_config Sample.cdn "abcd" w1 = (Ok true, w1) /\
    requests w1 = ["http://s/p/config/ab/cd/abcd"].
Proof.
  pose (r := BaseCDN.fetch_config (CacheableCDNWrapper.get_item Sample.cdn)
               "abcd" Sample.fresh).
  assert (Hrun : r = (Ok (Sample.bytes "hello world"), snd r))
    by (apply run_ok; reflexivity).
  unfold r in Hrun at 1.
  destruct (fetch_config_caches Sample.cdn "abcd" Sample.fresh (snd r)
              (Sample.bytes "hello world")) as [Hconfig _].
  destruct (Hconfig Hrun) as (_ & Hhas & _).
  exists (snd r). split; [exact Hrun|]. split; [exact Hhas | reflexivity].
Defined.

(** X12. [download_data] through the caching CDN returns the local copy:
    when it returns, the stream holds exactly the bytes of the local data
    file of the key and [has_data] is true. *)
Theorem download_data_is_local (self : CacheableCDNWrapper.t) (key : string)
    (w w1 : world) (s : stream)
    (Hrun : BaseCDN.download_data (CacheableCDNWrapper.get_item self) key w
            = (Ok s, w1)) :
  files (fs w1) !! LocalCDN.get_full_path
                     (CacheableCDNWrapper.local_cdn self)
                     ("/data/" +:+ partition_hash key) = Some (pending s) /\
  s = Stream.of_bytes (pending s) /\
  CacheableCDNWrapper.has_data self key w1 = (Ok true, w1).
Proof.
  unfold BaseCDN.download_data in Hrun.
  destruct (get_item_returns_local _ _ _ _ _ Hrun) as (c & Hc & -> & _).
  split; [exact Hc|]. split; [reflexivity|].
  unfold CacheableCDNWrapper.has_data. rewrite exists_run.
  unfold Os.present, Os.is_file. rewrite Hc.
  rewrite bool_decide_eq_true_2 by eauto. reflexivity.
Qed.

Lemma download_data_is_local_witness :
  exists s w1,
    BaseCDN.download_data (CacheableCDNWrapper.get_item Sample.cdn) "abcd"
      Sample.fresh = (Ok s, w1) /\
    CacheableCDNWrapper.has_data Sample.cdn "abcd" w1 = (Ok true, w1).
Proof.
  pose (r := BaseCDN.download_data (CacheableCDNWrapper.get_item Sample.cdn)
               "abcd" Sample.fresh).
  assert (Hrun : r = (Ok Sample.body, snd r)) by (apply run_ok; reflexivity).
  unfold r in Hrun at 1.
  destruct (download_data_is_local _ _ _ _ _ Hrun) as (_ & _ & Hhas).
  exists Sample.body, (snd r). auto.
Defined.

(** X13. [LocalCDN] only reads.  [get_item] and [exists] leave the whole
    state as it is.  [get_item] returns the bytes of the file at the resolved
    path; when no file is there it raises [IsADirectoryError] for a
    directory, [NotADirectoryError] when an ancestor of the path is a
    regular file, and [FileNotFoundError] otherwise.  [fetch_config] on a
    local CDN returns exactly the bytes of the local config file, and raises
    the same way. *)
Theorem local_cdn_only_reads (self : LocalCDN.t) (path key : string)
    (w : world) :
  let full := LocalCDN.get_full_path self path in
  let refusal (p : string) : exn :=
    if Os.is_dir (fs w) p then IsADirectoryError
    else if existsb (Os.is_file (fs w)) (Os.ancestors (String.length p) p)
    then NotADirectoryError
    else FileNotFoundError in
  LocalCDN.get_item self path w =
    (match files (fs w) !! full with
     | Some content => Ok (Stream.of_bytes content)
     | None => Raise (refusal full)
     end, w) /\
  LocalCDN.exists_ self path w = (Ok (Os.present (fs w) full), w) /\
  BaseCDN.fetch_config (LocalCDN.get_item self) key w =
    (match files (fs w) !! LocalCDN.get_full_path self
                             ("/config/" +:+ partition_hash key) with
     | Some content => Ok content
     | None =>
         Raise (refusal (LocalCDN.get_full_path self
                           ("/config/" +:+ partition_hash key)))
     end, w).
Proof.
  cbv zeta.
  assert (Hget : forall p,
            LocalCDN.get_item self p w =
            (match files (fs w) !! LocalCDN.get_full_path self p with
             | Some content => Ok (Stream.of_bytes content)
             | None =>
                 Raise (if Os.is_dir (fs w) (LocalCDN.get_full_path self p)
                        then IsADirectoryError
                        else if existsb (Os.is_file (fs w))
                                  (Os.ancestors
                                     (String.length
                                        (LocalCDN.get_full_path self p))
                                     (LocalCDN.get_full_path self p))
                        then NotADirectoryError
                        else FileNotFoundError)
             end, w)).
  { intros p. unfold LocalCDN.get_item, bind. rewrite on_fs_run.
    unfold Os.open_rb.
    destruct (files (fs w) !! LocalCDN.get_full_path self p); simpl.
    - by rewrite set_fs_same.
    - destruct (Os.is_dir (fs w) _); simpl; [by rewrite set_fs_same|].
      destruct (existsb _ _); simpl; by rewrite set_fs_same. }
  split; [apply Hget|]. split; [apply exists_run|].
  unfold BaseCDN.fetch_config, bind. rewrite Hget.
  destruct (files (fs w) !! _).
  - unfold lift_result. by rewrite read_within_of_bytes.
  - reflexivity.
Qed.

Lemma local_cdn_only_reads_witness :
  LocalCDN.get_item (LocalCDN.init "d") "/x/y" Sample.cached
    = (Raise NotADirectoryError, Sample.cached) /\
  LocalCDN.get_item (LocalCDN.init "d") "/z" Sample.cached
    = (Raise FileNotFoundError, Sample.cached) /\
  LocalCDN.get_item (LocalCDN.init "") "d" Sample.cached
    = (Raise IsADirectoryError, Sample.cached).
Proof.
  split; [|split].
  - exact (proj1 (local_cdn_only_reads (LocalCDN.init "d") "/x/y" ""
                    Sample.cached)).
  - exact (proj1 (local_cdn_only_reads (LocalCDN.init "d") "/z" ""
                    Sample.cached)).
  - exact (proj1 (local_cdn_only_reads (LocalCDN.init "") "d" ""
                    Sample.cached)).
Defined.

(** X14. [RemoteCDN] caches nothing.  [fetch_config] on a remote CDN issues
    exactly one GET, to [{server}/{cdn_path}/config/{partition_hash(key)}],
    and leaves the file system as it is, whatever the outcome; when the
    answer carries a content length and its body arrives whole, the body is
    what is returned. *)
Theorem remote_fetch_config (self : RemoteCDN.t) (key : string) (w : world) :
  let url := RemoteCDN.server self +:+ "/" +:+ RemoteCDN.path self
             +:+ "/config/" +:+ partition_hash key in
  let out := BaseCDN.fetch_config (RemoteCDN.get_item self) key w in
  requests (snd out) = requests w ++ [url] /\
  fs (snd out) = fs w /\
  forall resp n,
    origin w (length (requests w)) url = Some resp ->
    content_length resp = Some n ->
    delivers (raw resp) = true ->
    fst out = Ok (pending (raw resp)).
Proof.
  cbv zeta. unfold BaseCDN.fetch_config, bind.
  pose proof (remote_get_item_log self ("/config/" +:+ partition_hash key) w)
    as [Hlog Hfs].
  split; [|split].
  - destruct (RemoteCDN.get_item self _ w) as [[s|e] w']; exact Hlog.
  - destruct (RemoteCDN.get_item self _ w) as [[s|e] w']; exact Hfs.
  - intros resp n Ho Hn Hd.
    destruct (remote_get_item_ok self _ w resp n Ho Hn) as (wa & -> & _).
    unfold lift_result. simpl. by apply read_within_delivers.
Qed.

(** ** More on the orchestrator *)

Section KegMore.

(** [get_psv], outcome by outcome. *)
Lemma get_psv_unfold (self : Keg.t) (path : string) (w : keg_world) :
  Keg.get_psv self path w =
  match backend w (length (fetches w)) (Keg.remote self +:+ path) with
  | None => (Raise ConnectionError, after_fetch self path None w)
  | Some (p, r) =>
      let wc := after_fetch self path (Some r) w in
      match Sql.delete_rows (Py.strip_slash path) (Keg.remote self) (digest r)
                            (store w) with
      | (Raise e, d1) => (Raise e, set_working d1 wc)
      | (Ok _, d1) =>
          match Sql.insert_rows (Py.strip_slash path) (header p)
                  (Keg.remote self) (digest r) 0 (psv_rows p) d1 with
          | (Raise e, d2) => (Raise e, set_working d2 wc)
          | (Ok _, d2) =>
              let d3 := {| Sql.responses :=
                             Sql.responses d2 ++ [record_for self path r];
                           Sql.tables := Sql.tables d2 |} in
              (Ok (p, r),
               {| cache_db := {| Sql.working := d3; Sql.committed := d3 |};
                  state_cache := state_cache wc; backend := backend w;
                  fetches := fetches wc |})
          end
      end
  end.
Proof.
  unfold Keg.get_psv. unfold bind at 1. unfold HttpBackend.get_psv.
  destruct (backend w (length (fetches w)) (Keg.remote self +:+ path))
    as [[p r]|]; [|reflexivity].
  unfold bind at 1. unfold StateCache.write_to_cache, modify.
  unfold bind at 1. rewrite on_db_run. cbv zeta.
  unfold store. cbn [cache_db].
  destruct (Sql.delete_rows (Py.strip_slash path) (Keg.remote self) (digest r)
              (Sql.working (cache_db w))) as [[u1|e1] d1]; [|reflexivity].
  cbn [fst snd]. unfold bind at 1. rewrite on_db_run.
  unfold store, set_working. cbn [cache_db Sql.working].
  destruct (Sql.insert_rows (Py.strip_slash path) (header p) (Keg.remote self)
              (digest r) 0 (psv_rows p) d1) as [[u2|e2] d2]; [|reflexivity].
  reflexivity.
Qed.

Lemma delete_rows_responses (t remote key : string) (db : Sql.database) :
  Sql.responses (snd (Sql.delete_rows t remote key db)) = Sql.responses db.
Proof.
  unfold Sql.delete_rows. case_bool_decide; [reflexivity|].
  by destruct (Sql.tables db !! t).
Qed.

Lemma delete_rows_raise (t remote key : string) (db db' : Sql.database)
    (e : exn) :
  Sql.delete_rows t remote key db = (Raise e, db') ->
  db' = db /\ e = OperationalError /\
  (t = "responses" \/ Sql.tables db !! t = None).
Proof.
  unfold Sql.delete_rows. case_bool_decide as Ht.
  - intros [= <- <-]. auto.
  - destruct (Sql.tables db !! t); [discriminate|]. intros [= <- <-]. auto.
Qed.

Lemma insert_row_responses (t : string) (header : list string)
    (remote key : string) (i : Z) (row : list string) (db : Sql.database) :
  Sql.responses (snd (Sql.insert_row t header remote key i row db))
    = Sql.responses db.
Proof.
  unfold Sql.insert_row.
  repeat match goal with
         | |- context [if ?c then _ else _] => destruct c; [reflexivity|]
         | |- context [match ?o with Some _ => _ | None => _ end] =>
             destruct o; [|reflexivity]
         end.
  reflexivity.
Qed.

Lemma insert_rows_responses (t : string) (header : list string)
    (remote key : string) (rows : list (list string)) :
  forall (i : Z) (db : Sql.database),
    Sql.responses (snd (Sql.insert_rows t header remote key i rows db))
      = Sql.responses db.
Proof.
  induction rows as [|row rows IH]; intros i db; [reflexivity|].
  simpl. unfold bind.
  pose proof (insert_row_responses t header remote key i row db) as H.
  destruct (Sql.insert_row t header remote key i row db) as [[u|e] db1];
    simpl in H; [|exact H].
  by rewrite IH.
Qed.

Lemma insert_row_raise (t : string) (header : list string)
    (remote key : string) (i : Z) (row : list string)
    (db db' : Sql.database) (e : exn) :
  Sql.insert_row t header remote key i row db = (Raise e, db') -> db' = db.
Proof.
  unfold Sql.insert_row.
  repeat match goal with
         | |- (if ?c then _ else _) = _ -> _ =>
             destruct c; [by intros [= _ <-]|]
         | |- match ?o with Some _ => _ | None => _ end = _ -> _ =>
             destruct o; [|by intros [= _ <-]]
         end.
  discriminate.
Qed.

(** An [executemany] that raises has inserted the rows before the one
    that was refused. *)
Lemma insert_rows_raise (t : string) (header : list string)
    (remote key : string) (rows : list (list string)) :
  forall (i : Z) (db db' : Sql.database) (tbl : Sql.psv_table) (e : exn),
    Sql.insert_rows t header remote key i rows db = (Raise e, db') ->
    Sql.tables db !! t = Some tbl ->
    exists k : nat,
      k < length rows /\
      Sql.tables db' !! t =
        Some {| Sql.t_columns := Sql.t_columns tbl;
                Sql.t_rows := Sql.t_rows tbl
                              ++ rows_of header remote key i (take k rows) |} /\
      (forall t', t' <> t -> Sql.tables db' !! t' = Sql.tables db !! t').
Proof.
  induction rows as [|row rows IH]; intros i db db' tbl e Hrun Htbl;
    [discriminate|].
  simpl in Hrun. unfold bind in Hrun.
  destruct (Sql.insert_row t header remote key i row db)
    as [[u1|e1] db1] eqn:Hrow.
  - apply insert_row_ok in Hrow as (tbl' & Htbl' & _ & Htabs).
    rewrite Htbl in Htbl'. injection Htbl' as <-.
    assert (Hnext : Sql.tables db1 !! t =
              Some {| Sql.t_columns := Sql.t_columns tbl;
                      Sql.t_rows := Sql.t_rows tbl
                                    ++ rows_of header remote key i [row] |})
      by (rewrite Htabs; apply lookup_insert_eq).
    destruct (IH _ _ _ _ _ Hrun Hnext) as (k & Hk & Hlook & Hother).
    exists (S k). split; [simpl; lia|]. split.
    + rewrite Hlook. simpl. by rewrite <- app_assoc.
    + intros t' Hne. rewrite (Hother _ Hne), Htabs.
      by apply lookup_insert_ne.
  - apply insert_row_raise in Hrow as Hsame. injection Hrun as _ <-.
    subst db1. exists 0. split; [simpl; lia|]. split; [|auto].
    simpl. rewrite app_nil_r, Htbl. by destruct tbl.
Qed.

(** What a [get_psv] that raises has done. *)
Lemma get_psv_raise_effect (self : Keg.t) (path : string)
    (w w' : keg_world) (e : exn) :
  Keg.get_psv self path w = (Raise e, w') ->
  Sql.committed (cache_db w') = Sql.committed (cache_db w) /\
  Sql.responses (store w') = Sql.responses (store w) /\
  fetches w' = fetches w ++ [Keg.remote self +:+ path] /\
  backend w' = backend w /\
  (store w' = store w \/
   exists (p : PSVFile) (r : Response) (tbl : Sql.psv_table) (k : nat),
     backend w (length (fetches w)) (Keg.remote self +:+ path)
       = Some (p, r) /\
     Sql.tables (store w) !! Py.strip_slash path = Some tbl /\
     k < length (psv_rows p) /\
     Sql.tables (store w') !! Py.strip_slash path =
       Some {| Sql.t_columns := Sql.t_columns tbl;
               Sql.t_rows :=
                 filter (fun x => Sql.tagged (Keg.remote self) (digest r) x
                                  = false) (Sql.t_rows tbl)
                 ++ rows_of (header p) (Keg.remote self) (digest r) 0
                            (take k (psv_rows p)) |} /\
     (forall t', t' <> Py.strip_slash path ->
                 Sql.tables (store w') !! t' = Sql.tables (store w) !! t')).
Proof.
  intros Hfail. rewrite get_psv_unfold in Hfail.
  destruct (backend w (length (fetches w)) (Keg.remote self +:+ path))
    as [[p r]|] eqn:Hback.
  - cbv zeta in Hfail.
    pose proof (delete_rows_responses (Py.strip_slash path) (Keg.remote self)
                  (digest r) (store w)) as Hd.
    destruct (Sql.delete_rows _ _ _ _) as [[u1|e1] d1] eqn:Hdel; simpl in Hd.
    + pose proof (insert_rows_responses (Py.strip_slash path) (header p)
                    (Keg.remote self) (digest r) (psv_rows p) 0 d1) as Hi.
      destruct (Sql.insert_rows _ _ _ _ _ _ _) as [[u2|e2] d2] eqn:Hins;
        simpl in Hi; [discriminate|].
      injection Hfail as <- <-.
      apply delete_rows_ok in Hdel as (tbl & Ht & _ & Htabs).
      assert (Hnext : Sql.tables d1 !! Py.strip_slash path =
                Some {| Sql.t_columns := Sql.t_columns tbl;
                        Sql.t_rows :=
                          filter (fun x => Sql.tagged (Keg.remote self)
                                             (digest r) x = false)
                                 (Sql.t_rows tbl) |})
        by (rewrite Htabs; apply lookup_insert_eq).
      destruct (insert_rows_raise _ _ _ _ _ _ _ _ _ _ Hins Hnext)
        as (k & Hk & Hlook & Hother).
      unfold store in *. simpl.
      split; [reflexivity|]. split; [congruence|].
      split; [reflexivity|]. split; [reflexivity|].
      right. exists p, r, tbl, k.
      split; [reflexivity|]. split; [exact Ht|]. split; [exact Hk|].
      split; [exact Hlook|].
      intros t' Hne. rewrite (Hother _ Hne), Htabs.
      by apply lookup_insert_ne.
    + apply delete_rows_raise in Hdel as (-> & _).
      injection Hfail as <- <-. unfold store in *. simpl. auto 10.
  - injection Hfail as <- <-. auto 10.
Qed.

End KegMore.

(** X15. A [get_psv] that raises - the fetch fails, the table is missing,
    a row does not fit the header - has committed nothing and recorded no
    response, after exactly one fetch.  It does not roll back either: when
    the failure is at a row, the deletion of the old rows of that (remote,
    digest) and the rows inserted before the failing one stay in the open
    transaction; otherwise the working database is what it was. *)
Theorem get_psv_raise_commits_nothing (self : Keg.t) (path : string)
    (w w' : keg_world) (e : exn)
    (Hfail : Keg.get_psv self path w = (Raise e, w')) :
  Sql.committed (cache_db w') = Sql.committed (cache_db w) /\
  Sql.responses (store w') = Sql.responses (store w) /\
  fetches w' = fetches w ++ [Keg.remote self +:+ path] /\
  backend w' = backend w /\
  (store w' = store w \/
   exists (p : PSVFile) (r : Response) (tbl : Sql.psv_table) (k : nat),
     backend w (length (fetches w)) (Keg.remote self +:+ path)
       = Some (p, r) /\
     Sql.tables (store w) !! Py.strip_slash path = Some tbl /\
     k < length (psv_rows p) /\
     Sql.tables (store w') !! Py.strip_slash path =
       Some {| Sql.t_columns := Sql.t_columns tbl;
               Sql.t_rows :=
                 filter (fun x => Sql.tagged (Keg.remote self) (digest r) x
                                  = false) (Sql.t_rows tbl)
                 ++ rows_of (header p) (Keg.remote self) (digest r) 0
                            (take k (psv_rows p)) |} /\
     (forall t', t' <> Py.strip_slash path ->
                 Sql.tables (store w') !! t' = Sql.tables (store w) !! t')).
Proof. exact (get_psv_raise_effect self path w w' e Hfail). Qed.

(** X16. When the table named for the path does not exist (or the path
    strips to ["responses"], which has no column [key]), [get_psv] raises
    [OperationalError] at its DELETE.  The database is untouched, but the
    response was already written to the disk cache. *)
Theorem get_psv_without_table (self : Keg.t) (path : string) (w : keg_world)
    (p : PSVFile) (r : Response)
    (Hback : backend w (length (fetches w)) (Keg.remote self +:+ path)
             = Some (p, r))
    (Hmissing : Py.strip_slash path = "responses" \/
                Sql.tables (store w) !! Py.strip_slash path = None) :
  exists w',
    Keg.get_psv self path w = (Raise OperationalError, w') /\
    cache_db w' = cache_db w /\
    state_cache w' =
      <[ (Keg.cache_dir self, resp_path r, digest r) := content r ]>
        (state_cache w).
Proof.
  rewrite get_psv_unfold, Hback. cbv zeta.
  assert (Hdel : Sql.delete_rows (Py.strip_slash path) (Keg.remote self)
                   (digest r) (store w) = (Raise OperationalError, store w)).
  { unfold Sql.delete_rows. destruct Hmissing as [Hname|Hnone].
    - by rewrite bool_decide_eq_true_2.
    - case_bool_decide; [reflexivity|]. by rewrite Hnone. }
  rewrite Hdel. eexists. split; [reflexivity|]. split; [|reflexivity].
  unfold set_working, store. simpl. by destruct (cache_db w).
Qed.

Lemma get_psv_raise_commits_nothing_witness :
  exists w',
    Keg.get_psv Sample.keg "/cdns" Scenario.keg_ragged
      = (Raise ProgrammingError, w') /\
    Sql.committed (cache_db w') = Sample.cdns_db /\
    Sql.responses (store w') = [] /\
    store w' <> Sample.cdns_db /\
    row_set (store w') "cdns" "r1" "D1" =
      [ {| Sql.p_remote := "r1"; Sql.p_key := "D1"; Sql.p_row := 0;
           Sql.p_fields := [("Name", "eu"); ("Path", "tpr/hs")] |} ].
Proof.
  pose (r := Keg.get_psv Sample.keg "/cdns" Scenario.keg_ragged).
  assert (Hfail : r = (Raise ProgrammingError, snd r))
    by (apply run_raise; reflexivity).
  unfold r in Hfail at 1.
  destruct (get_psv_raise_commits_nothing _ _ _ _ _ Hfail)
    as (Hc & Hresp & _ & _ & Hwork).
  exists (snd r). split; [exact Hfail|]. split; [exact Hc|].
  split; [exact Hresp|].
  assert (Hrows : row_set (store (snd r)) "cdns" "r1" "D1" =
            [ {| Sql.p_remote := "r1"; Sql.p_key := "D1"; Sql.p_row := 0;
                 Sql.p_fields := [("Name", "eu"); ("Path", "tpr/hs")] |} ])
    by reflexivity.
  split; [|exact Hrows].
  destruct Hwork as [Hsame | (p & t & tbl & k & _)].
  - rewrite Hsame in Hrows. discriminate.
  - intros Hsame. rewrite Hsame in Hrows. discriminate.
Defined.

Lemma get_psv_without_table_witness :
  exists w',
    Keg.get_psv Sample.keg "/cdns" Scenario.keg_no_table
      = (Raise OperationalError, w') /\
    state_cache w' !! ("cache", "/cdns", "D1") = Some (Sample.bytes "Name|Path").
Proof.
  destruct (get_psv_without_table Sample.keg "/cdns" Scenario.keg_no_table
              Sample.cdns_psv (Sample.cdns_response 0) eq_refl
              (or_intror eq_refl)) as (w' & Hrun & _ & Hc).
  exists w'. split; [exact Hrun|]. rewrite Hc. reflexivity.
Defined.

Section KegRows.

Lemma tagged_rows_deleted_frame (remote key remote' key' : string)
    (l : list Sql.psv_row) :
  remote' <> remote \/ key' <> key ->
  tagged_rows remote' key'
    (filter (fun r => Sql.tagged remote key r = false) l) =
  tagged_rows remote' key' l.
Proof.
  intros Hne. induction l as [|r l IH]; [reflexivity|].
  destruct (Sql.tagged remote key r) eqn:E.
  - rewrite filter_cons_False by congruence.
    apply tagged_true in E as [E1 E2].
    unfold tagged_rows in *. rewrite (filter_cons_False _ r); [exact IH|].
    rewrite tagged_true. intros [E1' E2']. destruct Hne; congruence.
  - rewrite filter_cons_True by exact E.
    unfold tagged_rows in *.
    destruct (Sql.tagged remote' key' r) eqn:E'.
    + rewrite !filter_cons_True by exact E'. by rewrite IH.
    + rewrite !filter_cons_False by congruence. exact IH.
Qed.

Lemma tagged_rows_of_frame (header : list string)
    (remote key remote' key' : string) (i : Z) (rows : list (list string)) :
  remote' <> remote \/ key' <> key ->
  tagged_rows remote' key' (rows_of header remote key i rows) = [].
Proof.
  intros Hne. revert i.
  induction rows as [|row rows IH]; intros i; [reflexivity|].
  simpl. unfold tagged_rows in *. rewrite filter_cons_False; [apply IH|].
  rewrite tagged_true. simpl. intros [E1 E2]. destruct Hne; congruence.
Qed.

Lemma rows_of_length (header : list string) (remote key : string) (i : Z)
    (rows : list (list string)) :
  length (rows_of header remote key i rows) = length rows.
Proof.
  revert i. induction rows as [|row rows IH]; intros i; simpl; auto.
Qed.

(** Row [n] of a batch carries the ordinal [i + n]. *)
Lemma rows_of_lookup (header : list string) (remote key : string)
    (rows : list (list string)) :
  forall (i : Z) (n : nat) (row : list string),
    rows !! n = Some row ->
    rows_of header remote key i rows !! n =
    Some {| Sql.p_remote := remote; Sql.p_key := key;
            Sql.p_row := i + Z.of_nat n; Sql.p_fields := zip header row |}.
Proof.
  induction rows as [|r rows IH]; intros i n row Hn; [discriminate|].
  destruct n as [|n]; simpl in *.
  - injection Hn as ->. by rewrite Z.add_0_r.
  - rewrite (IH _ _ _ Hn). do 2 f_equal. lia.
Qed.

(** A row that is inserted fits the header. *)
Lemma insert_rows_fit (t : string) (header : list string)
    (remote key : string) (rows : list (list string)) :
  forall (i : Z) (db db' : Sql.database) (u : unit),
    Sql.insert_rows t header remote key i rows db = (Ok u, db') ->
    Forall (fun row => length row = length header) rows.
Proof.
  induction rows as [|row rows IH]; intros i db db' u Hrun; [constructor|].
  simpl in Hrun. unfold bind in Hrun.
  destruct (Sql.insert_row t header remote key i row db) as [[u1|e] db1] eqn:Hrow;
    [|discriminate].
  constructor; [|by eapply IH].
  unfold Sql.insert_row in Hrow.
  repeat match type of Hrow with
         | (if ?c then _ else _) = _ => destruct c eqn:?; try discriminate
         | match ?o with Some _ => _ | None => _ end = _ =>
             destruct o; try discriminate
         end.
  match goal with
  | H : negb (_ =? _) = false |- _ =>
      apply negb_false_iff, Nat.eqb_eq in H; exact H
  end.
Qed.

End KegRows.

(** X17. A [get_psv] that returns touches only what it names: the rows of
    every other (remote, digest) in the table of the path are what they
    were, every other table is what it was, and the response records are
    the old ones followed by the new one. *)
Theorem get_psv_touches_only_its_rows (self : Keg.t) (path : string)
    (w w' : keg_world) (p : PSVFile) (r : Response)
    (Hrun : Keg.get_psv self path w = (Ok (p, r), w')) :
  (forall remote' key',
     remote' <> Keg.remote self \/ key' <> digest r ->
     row_set (store w') (Py.strip_slash path) remote' key' =
     row_set (store w) (Py.strip_slash path) remote' key') /\
  (forall t', t' <> Py.strip_slash path ->
              Sql.tables (store w') !! t' = Sql.tables (store w) !! t') /\
  Sql.responses (store w') =
    Sql.responses (store w) ++ [record_for self path r].
Proof.
  destruct (get_psv_effect _ _ _ _ _ _ Hrun)
    as (tbl & Ht & Ht' & Hother & Hresp & _).
  split; [|auto].
  intros remote' key' Hne. unfold row_set. rewrite Ht, Ht'. simpl.
  rewrite tagged_rows_app, tagged_rows_of_frame by exact Hne.
  rewrite app_nil_r. by apply tagged_rows_deleted_frame.
Qed.

Lemma get_psv_touches_only_its_rows_witness :
  exists w',
    Keg.get_psv Sample.keg "/cdns" Sample.keg_start
      = (Ok (Sample.cdns_psv, Sample.cdns_response 0), w') /\
    row_set (store w') "cdns" "r2" "D1" = [].
Proof.
  pose (a := Keg.get_psv Sample.keg "/cdns" Sample.keg_start).
  assert (H1 : a = (Ok (Sample.cdns_psv, Sample.cdns_response 0), snd a))
    by (apply run_ok; reflexivity).
  unfold a in H1 at 1.
  destruct (get_psv_touches_only_its_rows _ _ _ _ _ _ H1) as (Hrows & _).
  exists (snd a). split; [exact H1|].
  assert (Hne : "r2" <> Keg.remote Sample.keg \/
                "D1" <> digest (Sample.cdns_response 0))
    by (left; discriminate).
  exact (Hrows "r2" "D1" Hne).
Defined.

(** X22. [get_psv] never rolls back, so what a call that raised left in
    the open transaction is committed by the next call that returns: all
    rows but those of the later call's own (remote, digest) in its own
    table are committed as the failed call left them, while the response
    records are those from before the failed call followed by the record of
    the call that returned - rows of the failed response are then stored
    without any response record. *)
Theorem failed_get_psv_is_committed_later (self self2 : Keg.t)
    (path path2 : string) (w w1 w2 : keg_world) (e : exn)
    (p2 : PSVFile) (r2 : Response)
    (Hfail : Keg.get_psv self path w = (Raise e, w1))
    (Hnext : Keg.get_psv self2 path2 w1 = (Ok (p2, r2), w2)) :
  Sql.committed (cache_db w2) = store w2 /\
  Sql.responses (Sql.committed (cache_db w2)) =
    Sql.responses (store w) ++ [record_for self2 path2 r2] /\
  (forall t remote key,
     t <> Py.strip_slash path2 \/
     remote <> Keg.remote self2 \/ key <> digest r2 ->
     row_set (Sql.committed (cache_db w2)) t remote key =
     row_set (store w1) t remote key).
Proof.
  destruct (get_psv_raise_effect _ _ _ _ _ Hfail) as (_ & Hresp1 & _).
  destruct (get_psv_effect _ _ _ _ _ _ Hnext)
    as (tbl & Ht & Ht' & Hother & Hresp & Hcommit & _).
  rewrite Hcommit. split; [reflexivity|]. split; [by rewrite Hresp, Hresp1|].
  intros t remote key Hne. unfold row_set.
  destruct (decide (t = Py.strip_slash path2)) as [->|Hdiff].
  - destruct Hne as [Hne|Hne]; [done|].
    rewrite Ht, Ht'. simpl.
    rewrite tagged_rows_app, tagged_rows_of_frame by exact Hne.
    rewrite app_nil_r. by apply tagged_rows_deleted_frame.
  - by rewrite (Hother _ Hdiff).
Qed.

Lemma failed_get_psv_is_committed_later_witness :
  exists w1 w2,
    Keg.get_psv Sample.keg "/cdns" Scenario.keg_ragged_once
      = (Raise ProgrammingError, w1) /\
    Keg.get_psv Sample.keg "/cdns" w1
      = (Ok (Sample.cdns_psv, Sample.cdns_response 2), w2) /\
    row_set (Sql.committed (cache_db w2)) "cdns" "r1" "D0" =
      [ {| Sql.p_remote := "r1"; Sql.p_key := "D0"; Sql.p_row := 0;
           Sql.p_fields := [("Name", "eu"); ("Path", "tpr/hs")] |} ] /\
    records_of (Sql.committed (cache_db w2)) "r1" "D0" = [].
Proof.
  pose (a := Keg.get_psv Sample.keg "/cdns" Scenario.keg_ragged_once).
  assert (Hfail : a = (Raise ProgrammingError, snd a))
    by (apply run_raise; reflexivity).
  unfold a in Hfail at 1.
  pose (b := Keg.get_psv Sample.keg "/cdns" (snd a)).
  assert (Hnext : b = (Ok (Sample.cdns_psv, Sample.cdns_response 2), snd b))
    by (apply run_ok; reflexivity).
  unfold b in Hnext at 1.
  destruct (failed_get_psv_is_committed_later _ _ _ _ _ _ _ _ _ _ Hfail Hnext)
    as (_ & Hresp & Hrows).
  exists (snd a), (snd b). split; [exact Hfail|]. split; [exact Hnext|].
  split.
  - rewrite (Hrows "cdns" "r1" "D0") by (right; right; discriminate).
    reflexivity.
  - unfold records_of. rewrite Hresp. reflexivity.
Defined.

(** X18. After a [get_psv] that returns, the table of the path holds, for
    the (remote, digest) of the response, exactly one row per row of the
    fetched table, in order; row [n] carries the ordinal [n] and the header
    names paired with the cells of that row, and every fetched row has as
    many cells as the header has names. *)
Theorem get_psv_rows_are_numbered (self : Keg.t) (path : string)
    (w w' : keg_world) (p : PSVFile) (r : Response)
    (Hrun : Keg.get_psv self path w = (Ok (p, r), w')) :
  let stored :=
    row_set (store w') (Py.strip_slash path) (Keg.remote self) (digest r) in
  length stored = length (psv_rows p) /\
  (forall (n : nat) (row : list string),
     psv_rows p !! n = Some row ->
     stored !! n =
       Some {| Sql.p_remote := Keg.remote self; Sql.p_key := digest r;
               Sql.p_row := Z.of_nat n;
               Sql.p_fields := zip (header p) row |} /\
     length row = length (header p)).
Proof.
  cbv zeta.
  destruct (get_psv_effect _ _ _ _ _ _ Hrun) as (tbl & _ & Ht' & _).
  assert (Hstored : row_set (store w') (Py.strip_slash path)
                      (Keg.remote self) (digest r) =
                    rows_of (header p) (Keg.remote self) (digest r) 0
                            (psv_rows p)).
  { unfold row_set. rewrite Ht'. simpl.
    by rewrite tagged_rows_app, tagged_rows_deleted, tagged_rows_of. }
  rewrite Hstored. split; [apply rows_of_length|].
  intros n row Hn. split.
  - by rewrite (rows_of_lookup _ _ _ _ 0%Z n row Hn).
  - rewrite get_psv_unfold in Hrun.
    destruct (backend w _ _) as [[p0 r0]|]; [|discriminate].
    cbv zeta in Hrun.
    destruct (Sql.delete_rows _ _ _ _) as [[u1|e1] d1]; [|discriminate].
    destruct (Sql.insert_rows _ _ _ _ _ _ d1) as [[u2|e2] d2] eqn:Hins;
      [|discriminate].
    injection Hrun as <- <- _.
    pose proof (insert_rows_fit _ _ _ _ _ _ _ _ _ Hins) as Hfit.
    rewrite Forall_forall in Hfit. apply Hfit.
    by apply list_elem_of_lookup_2 in Hn.
Qed.

Lemma get_psv_rows_are_numbered_witness :
  exists w',
    Keg.get_psv Sample.keg "/cdns" Sample.keg_start
      = (Ok (Sample.cdns_psv, Sample.cdns_response 0), w') /\
    row_set (store w') "cdns" "r1" "D1" !! 1 =
      Some {| Sql.p_remote := "r1"; Sql.p_key := "D1"; Sql.p_row := 1;
              Sql.p_fields := [("Name", "us"); ("Path", "tpr/hs")] |}.
Proof.
  pose (a := Keg.get_psv Sample.keg "/cdns" Sample.keg_start).
  assert (H1 : a = (Ok (Sample.cdns_psv, Sample.cdns_response 0), snd a))
    by (apply run_ok; reflexivity).
  unfold a in H1 at 1.
  destruct (get_psv_rows_are_numbered _ _ _ _ _ _ H1) as (_ & Hrows).
  exists (snd a). split; [exact H1|].
  by destruct (Hrows 1 ["us"; "tpr/hs"] eq_refl) as [Hrow _].
Defined.

Section CachedCdnsMore.

Context {CDNs_t : Type}.
Variable psv_loads : list byte -> result PSVFile.
Variable CDNs_new : list string -> CDNs_t.

(** [get_cached_cdns] by the outcome of its query. *)
Lemma get_cached_cdns_run (self : Keg.t) (remote cache_dir : string)
    (w : keg_world) :
  Keg.get_cached_cdns psv_loads CDNs_new self remote cache_dir w =
  match Sql.latest (filter (fun r => Sql.matches remote "/cdns" r = true)
                           (Sql.responses (store w))) with
  | None => Keg.get_cdns CDNs_new self w
  | Some rec =>
      (match state_cache w !! (cache_dir, "/cdns", Sql.r_digest rec) with
       | Some blob =>
           match psv_loads blob with
           | Ok psvfile => Ok (map CDNs_new (psv_rows psvfile))
           | Raise e => Raise e
           end
       | None => Raise FileNotFoundError
       end, w)
  end.
Proof.
  unfold Keg.get_cached_cdns. unfold bind at 1. rewrite on_db_run.
  unfold Sql.select_latest_digest, gets. cbn [fst snd].
  rewrite set_working_same.
  destruct (Sql.latest _) as [rec|]; simpl; [|reflexivity].
  unfold bind, Keg.get_cached_psv, bind, StateCache.read, lift_result, ret.
  destruct (state_cache w !! (cache_dir, "/cdns", Sql.r_digest rec))
    as [blob|]; [|reflexivity].
  destruct (psv_loads blob); reflexivity.
Qed.

Lemma get_cdns_log (self : Keg.t) (w : keg_world) :
  fetches (snd (Keg.get_cdns CDNs_new self w)) =
  fetches w ++ [Keg.remote self +:+ "/cdns"].
Proof.
  unfold Keg.get_cdns, bind.
  pose proof (get_psv_log self "/cdns" w) as Hlog.
  destruct (Keg.get_psv self "/cdns" w) as [[[p r]|e] w']; exact Hlog.
Qed.

Lemma latest_newest (l : list Sql.response_row) (rec : Sql.response_row) :
  (forall x, x ∈ l -> (Sql.r_timestamp x < Sql.r_timestamp rec)%Z) ->
  Sql.latest (l ++ [rec]) = Some rec.
Proof.
  induction l as [|x l IH]; intros Hlt; [reflexivity|].
  simpl. rewrite IH by (intros y Hy; apply Hlt; by right).
  assert (Hx : (Sql.r_timestamp x < Sql.r_timestamp rec)%Z)
    by (apply Hlt; by left).
  apply Z.ltb_lt in Hx. by rewrite Hx.
Qed.

End CachedCdnsMore.

(** X19. What was fetched live is then served from the cache.  After a
    [get_psv("/cdns")] that returned, [get_cached_cdns] for the remote of
    the object finds a record and makes no fetch: the state stays as it is.
    When the new response is newer than every earlier record of that remote
    and was cached under ["/cdns"] in the directory that is asked, the list
    returned is the one parsed from the content of that response. *)
Theorem live_cdns_are_then_cached {CDNs_t : Type}
    (psv_loads : list byte -> result PSVFile)
    (CDNs_new : list string -> CDNs_t)
    (self : Keg.t) (cache_dir : string) (w w1 : keg_world)
    (p : PSVFile) (r : Response)
    (Hlive : Keg.get_psv self "/cdns" w = (Ok (p, r), w1)) :
  let out :=
    Keg.get_cached_cdns psv_loads CDNs_new self (Keg.remote self) cache_dir w1 in
  snd out = w1 /\
  ((forall x, x ∈ filter (fun x => Sql.matches (Keg.remote self) "/cdns" x = true)
                         (Sql.responses (store w)) ->
              (Sql.r_timestamp x < timestamp r)%Z) ->
   resp_path r = "/cdns" -> cache_dir = Keg.cache_dir self ->
   fst out = match psv_loads (content r) with
             | Ok psvfile => Ok (map CDNs_new (psv_rows psvfile))
             | Raise e => Raise e
             end).
Proof.
  cbv zeta. rewrite get_cached_cdns_run.
  destruct (get_psv_effect _ _ _ _ _ _ Hlive)
    as (_ & _ & _ & _ & Hresp & _).
  assert (Hknown :
    filter (fun x => Sql.matches (Keg.remote self) "/cdns" x = true)
           (Sql.responses (store w1)) =
    filter (fun x => Sql.matches (Keg.remote self) "/cdns" x = true)
           (Sql.responses (store w)) ++ [record_for self "/cdns" r]).
  { rewrite Hresp, filter_app. f_equal.
    rewrite filter_cons_True; [reflexivity|].
    unfold Sql.matches. simpl. by rewrite !bool_decide_eq_true_2. }
  rewrite Hknown. split.
  - pose proof (latest_spec
                  (filter (fun x => Sql.matches (Keg.remote self) "/cdns" x
                                    = true) (Sql.responses (store w))
                   ++ [record_for self "/cdns" r])) as Hl.
    destruct (Sql.latest _) as [rec|]; [reflexivity|].
    by apply app_eq_nil in Hl as [_ ?].
  - intros Hnew Hpath ->.
    rewrite (latest_newest _ (record_for self "/cdns" r) Hnew). cbn [fst].
    rewrite get_psv_unfold in Hlive.
    destruct (backend w _ _) as [[p0 r0]|]; [|discriminate].
    cbv zeta in Hlive.
    destruct (Sql.delete_rows _ _ _ _) as [[u1|e1] d1]; [|discriminate].
    destruct (Sql.insert_rows _ _ _ _ _ _ d1) as [[u2|e2] d2]; [|discriminate].
    injection Hlive as <- <- <-. simpl.
    rewrite Hpath. by rewrite lookup_insert_eq.
Qed.

Lemma live_cdns_are_then_cached_witness :
  exists w1,
    Keg.get_psv Sample.keg "/cdns" Sample.keg_start
      = (Ok (Sample.cdns_psv, Sample.cdns_response 0), w1) /\
    Keg.get_cached_cdns Sample.loads Sample.row_cdn Sample.keg "r1" "cache" w1
      = (Ok [["eu"; "tpr/hs"]; ["us"; "tpr/hs"]], w1).
Proof.
  pose (a := Keg.get_psv Sample.keg "/cdns" Sample.keg_start).
  assert (H1 : a = (Ok (Sample.cdns_psv, Sample.cdns_response 0), snd a))
    by (apply run_ok; reflexivity).
  unfold a in H1 at 1.
  destruct (live_cdns_are_then_cached Sample.loads Sample.row_cdn Sample.keg
              "cache" _ _ _ _ H1) as (Hstate & Hres).
  exists (snd a). split; [exact H1|].
  assert (Hnew : forall x,
            x ∈ filter (fun x => Sql.matches (Keg.remote Sample.keg) "/cdns" x
                                 = true)
                       (Sql.responses (store Sample.keg_start)) ->
            (Sql.r_timestamp x < timestamp (Sample.cdns_response 0))%Z).
  { intros x Hx. vm_compute in Hx. by apply elem_of_nil in Hx. }
  specialize (Hres Hnew eq_refl eq_refl).
  rewrite (surjective_pairing
             (Keg.get_cached_cdns Sample.loads Sample.row_cdn Sample.keg
                "r1" "cache" (snd a))).
  exact (f_equal2 pair Hres Hstate).
Defined.

(** X20. The fallback of [get_cached_cdns] queries the remote of the
    object, not the remote it was asked about.  Asked about another remote
    that has no record, it fetches live from the object's remote, records
    the response under the object's remote, and so still has no record for
    the remote asked about: the next call with the same argument fetches
    live again. *)
Theorem other_remote_is_never_cached {CDNs_t : Type}
    (psv_loads : list byte -> result PSVFile)
    (CDNs_new : list string -> CDNs_t)
    (self : Keg.t) (remote cache_dir : string) (w w1 : keg_world)
    (cdns : list CDNs_t)
    (Hother : remote <> Keg.remote self)
    (Hnone : filter (fun x => Sql.matches remote "/cdns" x = true)
                    (Sql.responses (store w)) = [])
    (Hfirst : Keg.get_cached_cdns psv_loads CDNs_new self remote cache_dir w
              = (Ok cdns, w1)) :
  fetches w1 = fetches w ++ [Keg.remote self +:+ "/cdns"] /\
  filter (fun x => Sql.matches remote "/cdns" x = true)
         (Sql.responses (store w1)) = [] /\
  fetches (snd (Keg.get_cached_cdns psv_loads CDNs_new self remote
                  cache_dir w1))
    = fetches w1 ++ [Keg.remote self +:+ "/cdns"].
Proof.
  rewrite get_cached_cdns_run, Hnone in Hfirst. simpl in Hfirst.
  pose proof (get_cdns_log CDNs_new self w) as Hlog.
  rewrite Hfirst in Hlog. simpl in Hlog.
  unfold Keg.get_cdns, bind in Hfirst.
  destruct (Keg.get_psv self "/cdns" w) as [[[p r]|e] w'] eqn:Hget;
    [|discriminate].
  unfold ret in Hfirst. injection Hfirst as _ <-.
  destruct (get_psv_effect _ _ _ _ _ _ Hget) as (_ & _ & _ & _ & Hresp & _).
  assert (Hstill : filter (fun x => Sql.matches remote "/cdns" x = true)
                          (Sql.responses (store w')) = []).
  { rewrite Hresp, filter_app, Hnone. simpl.
    rewrite filter_cons_False; [reflexivity|].
    unfold Sql.matches. simpl. intros E.
    apply andb_true_iff in E as [E _]. apply bool_decide_eq_true in E.
    congruence. }
  split; [exact Hlog|]. split; [exact Hstill|].
  rewrite get_cached_cdns_run, Hstill. simpl. apply get_cdns_log.
Qed.

Lemma other_remote_is_never_cached_witness :
  exists cdns w1,
    Keg.get_cached_cdns Sample.loads Sample.row_cdn Sample.keg "r2" "cache"
      Sample.keg_start = (Ok cdns, w1) /\
    fetches (snd (Keg.get_cached_cdns Sample.loads Sample.row_cdn Sample.keg
                    "r2" "cache" w1)) = ["r1/cdns"; "r1/cdns"].
Proof.
  pose (a := Keg.get_cached_cdns Sample.loads Sample.row_cdn Sample.keg "r2"
               "cache" Sample.keg_start).
  assert (H1 : a = (Ok [["eu"; "tpr/hs"]; ["us"; "tpr/hs"]], snd a))
    by (apply run_ok; reflexivity).
  unfold a in H1 at 1.
  destruct (other_remote_is_never_cached Sample.loads Sample.row_cdn
              Sample.keg "r2" "cache" Sample.keg_start _ _
              ltac:(discriminate) eq_refl H1) as (Hf1 & _ & Hf2).
  eexists _, (snd a). split; [exact H1|].
  rewrite Hf2, Hf1. reflexivity.
Defined.
